(** * Planner frontend: the note synchronisation hook and the board's
      stacking policy

    A shallow embedding of [useSyncNotes] (src/hooks/useSyncNotes.ts, the
    version that normalises [zIndex]) and of the stacking code of [App]
    (src/App.tsx: [maxZIndex], [handleUpdateNote]).

    Modelling conventions.
    - A JavaScript [number] is an integer of [Z]; a property that the code
      tests for [null]/[undefined] is an [option].  The sum [maxZIndex + 1]
      of the stacking code is the sum of doubles, [number_add], which
      differs from the integer sum from 2^53 on; array positions, the
      attempt counter, delays and pixel coordinates stay far below that and
      their sums are integer sums.
    - The [notes] object ([Record<string, Note>]) is a [gmap string Note.t]
      for its own properties, and the note that is its prototype when an
      assignment to the key ["__proto__"] made one so.
    - [useRef] cells and [useState] cells are fields of one record, [Hook];
      every callback is a function [Hook -> Hook].
    - React applies the updaters given to [setNotes] in the order of the
      calls, so the collection after a call is the [prev] of every later
      updater, and the model applies an updater's value at the call.  When
      and how often React runs the updater's body is its own choice: at the
      call, at a later render, again when it renders again or under
      StrictMode, or never once the component is gone.  The side effect in
      the body of [upsertNote]'s updater is therefore an event of its own,
      [UpdaterRan], which may follow the call at any distance, any number
      of times.  (All updates are taken at one priority, so that every run
      of a body sees the same [prev] and serialises the same frame.)
    - [WebSocket] objects live in a table ([sockets]); a reference to one is
      its position in the table.  Timers live in a table as well.
    - [JSON.stringify] and the outcome of [new WebSocket(url)] belong to the
      host, not to the repository: they are the two fields of [Runtime]. *)

From Stdlib Require Import ZArith Lia.
From stdpp Require Import gmap strings list fin_maps.

Local Open Scope Z_scope.

(** ** src/types.ts *)

Inductive CardStyle :=
| blue | indigo | purple | pink | red | orange | yellow
| green | teal | cyan | white | gray | gray_dark.

(** [Note].  The type says [zIndex: number]; the hook and [App] nevertheless
    test it against [null] and [0] before use, so the field is optional
    here. *)
Module Note.
Record t := mk {
  id : string;
  x : Z; y : Z; w : Z; h : Z;
  style : CardStyle;
  header : string;
  content : string;
  zIndex : option Z
}.

(** [{ ...note, zIndex: z }] *)
Definition with_zIndex (z : Z) (note : t) : t :=
  mk (id note) (x note) (y note) (w note) (h note)
     (style note) (header note) (content note) (Some z).
End Note.

(** [BackendNote = Note & { z_index?: number }], as it arrives on the wire:
    the [id] may be missing too, which is what the handlers test. *)
Module BackendNote.
Record t := mk {
  id : option string;
  x : Z; y : Z; w : Z; h : Z;
  style : CardStyle;
  header : string;
  content : string;
  zIndex : option Z;
  z_index : option Z
}.
End BackendNote.

(** The value of [JSON.parse(event.data)] as [ws.onmessage] discriminates
    it.  [Init None] is an [init] frame whose [notes] is not an array, an
    array element [None] is a falsy element ([null]); [Update None] and
    [Delete None] lack their payload. *)
Inductive Frame :=
| Unparseable
| NoDiscriminant
| Init (notes : option (list (option BackendNote.t)))
| Update (note : option BackendNote.t)
| Delete (id : option string)
| UnknownType (type : string).

(** The objects handed to [JSON.stringify] by [upsertNote] and
    [deleteNote]. *)
Inductive Outbound :=
| OutUpdate (note : Note.t)
| OutDelete (id : string).

Class Runtime := {
  JSON_stringify : Outbound -> string;
  (** [new WebSocket(url)] returns a socket ([true]) or throws ([false]) *)
  url_ok : bool
}.

(** ** JavaScript operators used by the code *)

(** Truthiness of a string: only the empty string is falsy. *)
Definition truthy (s : string) : bool :=
  match s with EmptyString => false | String _ _ => true end.

(** [a ?? b] when [b] may be absent as well. *)
Definition nullish_or {A} (a b : option A) : option A :=
  match a with Some v => Some v | None => b end.

(** [a ?? d] with a defined right operand is stdpp's [default d a]. *)

(** A sum of two numbers.  The numbers of this code are integers; an
    integer is a double when 53 bits write it, and the sum of two doubles
    is the double nearest to the exact sum, the even mantissa winning a
    tie.  (A sum that overflows is [Infinity]; adding 1 to a double never
    overflows.)  Comparisons, [Math.max] and [Math.min] are exact. *)
Definition double_round (z : Z) : Z :=
  let a := Z.abs z in
  if bool_decide (a < 2 ^ 53) then z
  else
    let ulp := 2 ^ (Z.log2 a - 52) in
    let q := a / ulp in
    let r := a mod ulp in
    let q' :=
      if bool_decide (2 * r < ulp) then q
      else if bool_decide (ulp < 2 * r) then q + 1
      else if Z.even q then q else q + 1 in
    Z.sgn z * (q' * ulp).

(** [a + b] *)
Definition number_add (a b : Z) : Z := double_round (a + b).

(** The integer is a double: 53 bits write it, and it lies in the range of
    the exponent. *)
Definition is_double (z : Z) : bool :=
  bool_decide (double_round z = z) && bool_decide (Z.abs z < 2 ^ 1024).

(** [Array.prototype.reduce(callback(acc, cur, index), init)], started at
    position [index]. *)
Fixpoint reduce {A B} (callback : B -> A -> nat -> B) (l : list A)
    (index : nat) (acc : B) : B :=
  match l with
  | [] => acc
  | cur :: rest => reduce callback rest (S index) (callback acc cur index)
  end.

(** ** The hook's state *)

Inductive Status := connecting | open | closed.

Inductive ReadyState := CONNECTING | OPEN | CLOSING | CLOSED.

Record WebSocket := {
  readyState : ReadyState;
  (** the frames accepted by [send], oldest first *)
  sent : list string
}.

Record Hook := {
  (** the own properties of the [notes] object *)
  notes : gmap string Note.t;
  (** the prototype of the [notes] object when it is a note: an assignment
      to the key ["__proto__"] of a plain object sets its prototype; [None]
      stands for [Object.prototype] *)
  notes_proto : option Note.t;
  status : Status;
  socketRef : option nat;
  isMountedRef : bool;
  reconnectTimeoutRef : option nat;
  reconnectAttempts : Z;
  messageQueue : list string;
  (** the frame of every updater that [upsertNote] gave to [setNotes] so
      far, in the order of the calls *)
  updaters : list string;
  (** every [WebSocket] constructed so far *)
  sockets : list WebSocket;
  (** every timer set so far: [Some delay] while pending, [None] once it
      fired or was cleared *)
  timers : list (option Z)
}.

Definition MAX_RECONNECT_ATTEMPTS : Z := 10.
Definition INITIAL_RECONNECT_DELAY : Z := 1000.
Definition MAX_QUEUE_SIZE : nat := 100.

(** [setNotes(object)] for an object with own properties [m] and
    prototype [proto]. *)
Definition setNotes_object (m : gmap string Note.t) (proto : option Note.t)
    (s : Hook) : Hook :=
  Build_Hook m proto (status s) (socketRef s) (isMountedRef s)
    (reconnectTimeoutRef s) (reconnectAttempts s) (messageQueue s)
    (updaters s) (sockets s) (timers s).

(** [setNotes] of an object that a spread or a rest pattern built: such an
    object has the ordinary prototype. *)
Definition setNotes (m : gmap string Note.t) (s : Hook) : Hook :=
  setNotes_object m None s.

Definition setStatus (st : Status) (s : Hook) : Hook :=
  Build_Hook (notes s) (notes_proto s) st (socketRef s) (isMountedRef s)
    (reconnectTimeoutRef s) (reconnectAttempts s) (messageQueue s)
    (updaters s) (sockets s) (timers s).

Definition set_socketRef (r : option nat) (s : Hook) : Hook :=
  Build_Hook (notes s) (notes_proto s) (status s) r (isMountedRef s)
    (reconnectTimeoutRef s) (reconnectAttempts s) (messageQueue s)
    (updaters s) (sockets s) (timers s).

Definition set_isMountedRef (b : bool) (s : Hook) : Hook :=
  Build_Hook (notes s) (notes_proto s) (status s) (socketRef s) b
    (reconnectTimeoutRef s) (reconnectAttempts s) (messageQueue s)
    (updaters s) (sockets s) (timers s).

Definition set_reconnectTimeoutRef (r : option nat) (s : Hook) : Hook :=
  Build_Hook (notes s) (notes_proto s) (status s) (socketRef s) (isMountedRef s)
    r (reconnectAttempts s) (messageQueue s)
    (updaters s) (sockets s) (timers s).

Definition set_reconnectAttempts (n : Z) (s : Hook) : Hook :=
  Build_Hook (notes s) (notes_proto s) (status s) (socketRef s) (isMountedRef s)
    (reconnectTimeoutRef s) n (messageQueue s)
    (updaters s) (sockets s) (timers s).

Definition set_messageQueue (q : list string) (s : Hook) : Hook :=
  Build_Hook (notes s) (notes_proto s) (status s) (socketRef s) (isMountedRef s)
    (reconnectTimeoutRef s) (reconnectAttempts s) q
    (updaters s) (sockets s) (timers s).

Definition set_updaters (l : list string) (s : Hook) : Hook :=
  Build_Hook (notes s) (notes_proto s) (status s) (socketRef s) (isMountedRef s)
    (reconnectTimeoutRef s) (reconnectAttempts s) (messageQueue s)
    l (sockets s) (timers s).

Definition set_sockets (l : list WebSocket) (s : Hook) : Hook :=
  Build_Hook (notes s) (notes_proto s) (status s) (socketRef s) (isMountedRef s)
    (reconnectTimeoutRef s) (reconnectAttempts s) (messageQueue s)
    (updaters s) l (timers s).

Definition set_timers (l : list (option Z)) (s : Hook) : Hook :=
  Build_Hook (notes s) (notes_proto s) (status s) (socketRef s) (isMountedRef s)
    (reconnectTimeoutRef s) (reconnectAttempts s) (messageQueue s)
    (updaters s) (sockets s) l.

(** The state [useSyncNotes] starts from, before its mount effect runs. *)
Definition initial : Hook :=
  Build_Hook ∅ None connecting None true None 0 [] [] [] [].

(** ** The host's [WebSocket] and timer operations *)

(** [socketRef.current?.readyState] *)
Definition current_readyState (s : Hook) : option ReadyState :=
  r ← socketRef s; readyState <$> sockets s !! r.

(** [... === WebSocket.OPEN] *)
Definition is_OPEN (rs : option ReadyState) : bool :=
  match rs with Some OPEN => true | _ => false end.

Definition set_readyState (ws : nat) (rs : ReadyState) (s : Hook) : Hook :=
  match sockets s !! ws with
  | Some sock => set_sockets (<[ws := Build_WebSocket rs (sent sock)]> (sockets s)) s
  | None => s
  end.

(** [ws.send(msg)].  An open socket takes the frame; a closing or closed one
    drops it.  (On a connecting socket the host throws; the hook only sends
    behind a test for [OPEN] or from the socket's own open event.) *)
Definition WebSocket_send (ws : nat) (msg : string) (s : Hook) : Hook :=
  match sockets s !! ws with
  | Some sock =>
      match readyState sock with
      | OPEN => set_sockets (<[ws := Build_WebSocket OPEN (sent sock ++ [msg])]> (sockets s)) s
      | _ => s
      end
  | None => s
  end.

(** [ws.close()]: a connecting or open socket starts closing; the host
    dispatches the close event later. *)
Definition WebSocket_close (ws : nat) (s : Hook) : Hook :=
  match sockets s !! ws with
  | Some sock =>
      match readyState sock with
      | CONNECTING | OPEN => set_readyState ws CLOSING s
      | _ => s
      end
  | None => s
  end.

(** [setTimeout(callback, delay)]: the new timer's handle and the state. *)
Definition setTimeout (delay : Z) (s : Hook) : nat * Hook :=
  (length (timers s), set_timers (timers s ++ [Some delay]) s).

Definition clearTimeout (t : nat) (s : Hook) : Hook :=
  set_timers (<[t := None]> (timers s)) s.

(** ** src/hooks/useSyncNotes.ts *)

Section useSyncNotes.
Context {host : Runtime}.

(** The zIndex of the note stored under [id]. *)
Definition existingZIndex (prev : gmap string Note.t) (id : string) : option Z :=
  n ← prev !! id; Note.zIndex n.

(** [prev[id]?.zIndex].  An own property answers first.  The key
    ["__proto__"], when it is no own property, reads the prototype of
    [prev]; every other inherited key reads a string, a number or a
    function, whose [zIndex] is undefined. *)
Definition known_zIndex (prev : gmap string Note.t) (proto : option Note.t)
    (id : string) : option Z :=
  match prev !! id with
  | Some n => Note.zIndex n
  | None =>
      if bool_decide (id = "__proto__") then p ← proto; Note.zIndex p
      else None
  end.

(** The queueing branch shared by [upsertNote] and [deleteNote]. *)
Definition enqueue (payload : string) (s : Hook) : Hook :=
  let s1 :=
    if bool_decide (MAX_QUEUE_SIZE ≤ length (messageQueue s))%nat
    then set_messageQueue (tail (messageQueue s)) s   (* shift() *)
    else s in
  set_messageQueue (messageQueue s1 ++ [payload]) s1. (* push(payload) *)

(** [if (socketRef.current?.readyState === WebSocket.OPEN) send else queue] *)
Definition send_or_enqueue (payload : string) (s : Hook) : Hook :=
  if is_OPEN (current_readyState s) then
    match socketRef s with
    | Some ws => WebSocket_send ws payload s
    | None => s
    end
  else enqueue payload s.

Definition connect (s : Hook) : Hook :=
  if negb (isMountedRef s) || is_OPEN (current_readyState s)
  then s
  else
    let s1 := setStatus connecting s in
    if url_ok then
      let ws := length (sockets s1) in
      set_socketRef (Some ws)
        (set_sockets (sockets s1 ++ [Build_WebSocket CONNECTING []]) s1)
    else setStatus closed s1.

(** The [while] loop of [ws.onopen], by recursion on the queue it empties. *)
Fixpoint flush (ws : nat) (queue : list string) (s : Hook) : Hook :=
  match queue with
  | [] => s
  | msg :: rest =>
      let s1 := set_messageQueue rest s in
      flush ws rest (if truthy msg then WebSocket_send ws msg s1 else s1)
  end.

Definition onopen (ws : nat) (s : Hook) : Hook :=
  if negb (isMountedRef s) then WebSocket_close ws s
  else
    let s1 := setStatus open s in
    let s2 := set_reconnectAttempts 0 s1 in
    flush ws (messageQueue s2) s2.

(** [backendNote.zIndex ?? backendNote.z_index] *)
Definition backendZIndex (backendNote : BackendNote.t) : option Z :=
  nullish_or (BackendNote.zIndex backendNote) (BackendNote.z_index backendNote).

(** The object literal [normalizedNote], common to the [init] and [update]
    branches up to its [zIndex]. *)
Definition normalizedNote (id : string) (backendNote : BackendNote.t)
    (zIndex : Z) : Note.t :=
  Note.mk id
    (BackendNote.x backendNote) (BackendNote.y backendNote)
    (BackendNote.w backendNote) (BackendNote.h backendNote)
    (BackendNote.style backendNote)
    (BackendNote.header backendNote)
    (BackendNote.content backendNote)
    (Some zIndex).

(** [zIndex: backendZIndex ?? index + 1]; [index] is a position in an
    array. *)
Definition init_zIndex (backendNote : BackendNote.t) (index : nat) : Z :=
  default (Z.of_nat index + 1) (backendZIndex backendNote).

(** The callback of the [reduce] in the [init] branch.  The accumulator
    is a plain object, here its own properties and its prototype:
    [acc[n.id] = normalizedNote] stores an own property, except for the key
    ["__proto__"], where it makes the note the prototype of [acc] and
    stores nothing. *)
Definition init_callback (acc : gmap string Note.t * option Note.t)
    (n : option BackendNote.t) (index : nat)
    : gmap string Note.t * option Note.t :=
  match n with
  | Some backendNote =>
      match BackendNote.id backendNote with
      | Some id =>
          if truthy id then
            let normalized :=
              normalizedNote id backendNote (init_zIndex backendNote index) in
            if bool_decide (id = "__proto__") then (acc.1, Some normalized)
            else (<[id := normalized]> acc.1, acc.2)
          else acc
      | None => acc
      end
  | None => acc
  end.

Definition noteMap (msg_notes : list (option BackendNote.t))
    : gmap string Note.t * option Note.t :=
  reduce init_callback msg_notes 0%nat (∅, None).

(** [finalZIndex] of the [update] branch. *)
Definition update_finalZIndex (remote existing : option Z) : Z :=
  match remote with
  | Some z => if bool_decide (0 < z) then Z.max z (default 0 existing)
              else default 1 existing
  | None => default 1 existing
  end.

(** The updater handed to [setNotes] in the [update] branch; [id] is
    [msg.note.id], already known to be a non-empty string.  The literal
    [{ ...prev, [id]: normalizedNote }] copies the own properties of [prev]
    and defines [id] as an own property whatever the key; its prototype is
    the ordinary one. *)
Definition update_updater (id : string) (backendNote : BackendNote.t)
    (prev : gmap string Note.t) (proto : option Note.t) : gmap string Note.t :=
  let existingZIndex := known_zIndex prev proto id in
  let finalZIndex :=
    update_finalZIndex (backendZIndex backendNote) existingZIndex in
  <[id := normalizedNote id backendNote finalZIndex]> prev.

Definition onmessage (data : Frame) (s : Hook) : Hook :=
  match data with
  | Unparseable => s                       (* caught, logged *)
  | NoDiscriminant => s
  | Init None => s                         (* logged, frame dropped *)
  | Init (Some msg_notes) =>
      setNotes_object (noteMap msg_notes).1 (noteMap msg_notes).2 s
  | Update (Some backendNote) =>
      match BackendNote.id backendNote with
      | Some id =>
          if truthy id
          then setNotes (update_updater id backendNote (notes s) (notes_proto s)) s
          else s
      | None => s
      end
  | Update None => s
  | Delete (Some id) =>
      if truthy id then setNotes (delete id (notes s)) s else s
  | Delete None => s
  | UnknownType _ => s
  end.

Definition onclose (s : Hook) : Hook :=
  let s1 := set_socketRef None s in
  if negb (isMountedRef s1) then s1
  else
    let s2 := setStatus closed s1 in
    if bool_decide (reconnectAttempts s2 < MAX_RECONNECT_ATTEMPTS) then
      let delay :=
        Z.min (INITIAL_RECONNECT_DELAY * 2 ^ reconnectAttempts s2) 30000 in
      let '(t, s3) := setTimeout delay s2 in
      set_reconnectTimeoutRef (Some t) s3
    else s2.

(** The callback given to [setTimeout] by [onclose]. *)
Definition reconnect_callback (s : Hook) : Hook :=
  if negb (isMountedRef s) then s
  else connect (set_reconnectAttempts (reconnectAttempts s + 1) s).

Definition onerror (ws : nat) (s : Hook) : Hook := WebSocket_close ws s.

(** The effect of [useEffect] and its cleanup. *)
Definition mount (s : Hook) : Hook := connect (set_isMountedRef true s).

Definition unmount (s : Hook) : Hook :=
  let s1 := set_isMountedRef false s in
  let s2 :=
    match reconnectTimeoutRef s1 with
    | Some t => set_reconnectTimeoutRef None (clearTimeout t s1)
    | None => s1
    end in
  match socketRef s2 with
  | Some ws => set_socketRef None (WebSocket_close ws s2)
  | None => s2
  end.

(** [finalZIndex] of [upsertNote]. *)
Definition upsert_finalZIndex (note_zIndex existing : option Z) : Z :=
  match note_zIndex with
  | Some z => if bool_decide (0 < z) then z else default 1 existing
  | None => default 1 existing
  end.

(** [upsertNote].  The value of its updater is applied at the call; the
    [send] or the push in the updater's body waits for React.  The frame
    depends on [note] and [prev] alone, so it is the same whenever and
    however often the body runs. *)
Definition upsertNote (note : Note.t) (s : Hook) : Hook :=
  let prev := notes s in
  let existingZIndex := known_zIndex prev (notes_proto s) (Note.id note) in
  let finalZIndex := upsert_finalZIndex (Note.zIndex note) existingZIndex in
  let noteToSave := Note.with_zIndex finalZIndex note in
  let payload := JSON_stringify (OutUpdate noteToSave) in
  let s1 := set_updaters (updaters s ++ [payload]) s in
  setNotes (<[Note.id note := noteToSave]> prev) s1.

(** React runs the body of the updater that the [k]-th call of
    [upsertNote] registered: the frame goes to the open socket or to the
    queue, as things stand then. *)
Definition updater_runs (k : nat) (s : Hook) : Hook :=
  match updaters s !! k with
  | Some payload => send_or_enqueue payload s
  | None => s
  end.

Definition deleteNote (id : string) (s : Hook) : Hook :=
  let s1 := setNotes (delete id (notes s)) s in
  let payload := JSON_stringify (OutDelete id) in
  send_or_enqueue payload s1.

(** ** How the host drives the socket's handlers

    The host moves a socket to [OPEN] before it dispatches the open event
    and to [CLOSED] before the close event; a timer fires only while it is
    pending. *)

Definition open_event (ws : nat) (s : Hook) : Hook :=
  onopen ws (set_readyState ws OPEN s).

Definition close_event (ws : nat) (s : Hook) : Hook :=
  onclose (set_readyState ws CLOSED s).

Definition timer_fires (t : nat) (s : Hook) : Hook :=
  match timers s !! t with
  | Some (Some _) => reconnect_callback (set_timers (<[t := None]> (timers s)) s)
  | _ => s
  end.

End useSyncNotes.

(** ** src/App.tsx *)

(** [Object.values(notes).reduce((max, n) => Math.max(max, n.zIndex || 0), 0)] *)
Definition maxZIndex (notes : gmap string Note.t) : Z :=
  foldl (λ max n, Z.max max (default 0 (Note.zIndex n))) 0
        (map_to_list notes).*2.

(** [updatedNote.zIndex < maxZIndex]; an absent [zIndex] compares false. *)
Definition zIndex_below (zIndex : option Z) (max : Z) : bool :=
  match zIndex with Some z => bool_decide (z < max) | None => false end.

Section App.
Context {host : Runtime}.

(** [handleUpdateNote] closes over the [maxZIndex] of the render that built
    it; that value is the first argument. *)
Definition handleUpdateNote (maxZIndex : Z) (updatedNote : Note.t)
    (s : Hook) : Hook :=
  if zIndex_below (Note.zIndex updatedNote) maxZIndex
  then upsertNote (Note.with_zIndex (number_add maxZIndex 1) updatedNote) s
  else upsertNote updatedNote s.

(** The handler as the render of the current collection builds it.  The
    cards hold it from that render to the next; a second call before the
    next render goes through the same handler, with the same [maxZIndex]. *)
Definition bring_to_front (updatedNote : Note.t) (s : Hook) : Hook :=
  handleUpdateNote (maxZIndex (notes s)) updatedNote s.

End App.

(** ** Runs of the hook *)

Section Runs.
Context {host : Runtime}.

(** A local intent of the presentation layer. *)
Inductive Intent :=
| Upsert (note : Note.t)
| Remove (id : string).

Definition perform (i : Intent) (s : Hook) : Hook :=
  match i with
  | Upsert note => upsertNote note s
  | Remove id => deleteNote id s
  end.

(** The frame of the call [perform i] made in state [s]: the one that the
    updater of an upsert serialises, the one that a delete sends. *)
Definition payload_of (i : Intent) (s : Hook) : string :=
  match i with
  | Upsert note =>
      let existing := known_zIndex (notes s) (notes_proto s) (Note.id note) in
      JSON_stringify (OutUpdate (Note.with_zIndex
        (upsert_finalZIndex (Note.zIndex note) existing) note))
  | Remove id => JSON_stringify (OutDelete id)
  end.

Fixpoint payloads (l : list Intent) (s : Hook) : list string :=
  match l with
  | [] => []
  | i :: rest => payload_of i s :: payloads rest (perform i s)
  end.

(** Everything that can happen to a hook: its effect and cleanup, the
    events of its sockets and timers, the calls of the presentation layer,
    and React running the body of an [upsertNote] updater. *)
Inductive Event :=
| Mounted
| Unmounted
| Opened (ws : nat)
| Received (data : Frame)
| Closed (ws : nat)
| Errored (ws : nat)
| TimerFired (t : nat)
| Intended (i : Intent)
| UpdaterRan (k : nat).

Definition handle (e : Event) (s : Hook) : Hook :=
  match e with
  | Mounted => mount s
  | Unmounted => unmount s
  | Opened ws => open_event ws s
  | Received data => onmessage data s
  | Closed ws => close_event ws s
  | Errored ws => onerror ws s
  | TimerFired t => timer_fires t s
  | Intended i => perform i s
  | UpdaterRan k => updater_runs k s
  end.

Fixpoint handle_all (l : list Event) (s : Hook) : Hook :=
  match l with
  | [] => s
  | e :: rest => handle_all rest (handle e s)
  end.

(** The calls of [l], React running the body of each [upsertNote] updater
    once, before the next call; [k] updaters were registered before. *)
Fixpoint prompt (k : nat) (l : list Intent) : list Event :=
  match l with
  | [] => []
  | Upsert note :: rest =>
      Intended (Upsert note) :: UpdaterRan k :: prompt (S k) rest
  | Remove id :: rest => Intended (Remove id) :: prompt k rest
  end.

(** The event is a call of the presentation layer or React running the
    body of an updater. *)
Definition is_local (e : Event) : bool :=
  match e with
  | Intended _ | UpdaterRan _ => true
  | _ => false
  end.

(** The frames that the event pushes on the queue when no socket is open,
    in the order of the pushes. *)
Definition pushed (e : Event) (s : Hook) : list string :=
  match e with
  | Intended (Remove id) => [JSON_stringify (OutDelete id)]
  | UpdaterRan k =>
      match updaters s !! k with Some payload => [payload] | None => [] end
  | _ => []
  end.

Fixpoint pushed_all (l : list Event) (s : Hook) : list string :=
  match l with
  | [] => []
  | e :: rest => pushed e s ++ pushed_all rest (handle e s)
  end.

(** The operations that write a note: a local upsert and an inbound
    [update] frame. *)
Inductive Change :=
| LocalUpsert (note : Note.t)
| RemoteUpdate (note : option BackendNote.t).

Definition apply_change (op : Change) (s : Hook) : Hook :=
  match op with
  | LocalUpsert note => upsertNote note s
  | RemoteUpdate note => onmessage (Update note) s
  end.

(** A local upsert that asks for a positive [zIndex] below the stored
    one. *)
Definition lowers (op : Change) (s : Hook) : bool :=
  match op with
  | LocalUpsert note =>
      match Note.zIndex note, existingZIndex (notes s) (Note.id note) with
      | Some z, Some stored => bool_decide (0 < z) && bool_decide (z < stored)
      | _, _ => false
      end
  | RemoteUpdate _ => false
  end.

(** No operation of the run lowers, each taken in the state it runs in. *)
Fixpoint none_lowers (ops : list Change) (s : Hook) : bool :=
  match ops with
  | [] => true
  | op :: rest => negb (lowers op s) && none_lowers rest (apply_change op s)
  end.

Fixpoint changes (ops : list Change) (s : Hook) : Hook :=
  match ops with
  | [] => s
  | op :: rest => changes rest (apply_change op s)
  end.

(** The timer that [after] holds and [before] did not, with its delay. *)
Definition new_timer (before after : Hook) : option (nat * Z) :=
  let t := length (timers before) in
  match timers after !! t with
  | Some (Some delay) => Some (t, delay)
  | _ => None
  end.

(** [n] sessions in a row that end without opening: each time the current
    socket closes and the retry that the close scheduled, if there is one,
    fires.  The result lists the delays of the retries. *)
Fixpoint failures (n : nat) (s : Hook) : list Z * Hook :=
  match n with
  | O => ([], s)
  | S n' =>
      match socketRef s with
      | Some ws =>
          let s1 := close_event ws s in
          match new_timer s s1 with
          | Some (t, delay) =>
              let '(delays, s2) := failures n' (timer_fires t s1) in
              (delay :: delays, s2)
          | None => ([], s1)
          end
      | None => ([], s)
      end
  end.

End Runs.

(** The delay the spec gives for a retry after [attempts] failures. *)
Definition backoff (attempts : nat) : Z :=
  Z.min (1000 * 2 ^ Z.of_nat attempts) 30000.

(** The last [n] elements of a list. *)
Definition last_n {A} (n : nat) (l : list A) : list A :=
  drop (length l - n) l.

(** ** The spec's formulas, for comparison with the code's *)

(** The spec's rule for the [zIndex] of an inbound [update]: the remote
    value is the camelCase field, else the snake_case one; if it is present
    and positive it is merged with the local value by maximum, otherwise
    the local value stands, else 1. *)
Definition spec_update_zIndex (camel snake local : option Z) : Z :=
  let remote := match camel with Some z => Some z | None => snake end in
  match remote with
  | Some r =>
      if bool_decide (0 < r) then
        match local with Some l => Z.max r l | None => r end
      else match local with Some l => l | None => 1 end
  | None => match local with Some l => l | None => 1 end
  end.

(** The spec's rule for the [zIndex] of an [init] element: the camelCase
    field if present and positive, else the snake_case field if present and
    positive, else the 1-based position. *)
Definition spec_init_zIndex (camel snake : option Z) (position : Z) : Z :=
  match camel with
  | Some z =>
      if bool_decide (0 < z) then z
      else match snake with
           | Some z' => if bool_decide (0 < z') then z' else position
           | None => position
           end
  | None =>
      match snake with
      | Some z' => if bool_decide (0 < z') then z' else position
      | None => position
      end
  end.

(** ** Sample data *)

Definition test_host : Runtime :=
  {| JSON_stringify := λ o,
       match o with
       | OutUpdate n => String.append "update " (Note.id n)
       | OutDelete id => String.append "delete " id
       end;
     url_ok := true |}.

Definition note_of (id : string) (zIndex : option Z) : Note.t :=
  Note.mk id 0 0 150 150 yellow "H" EmptyString zIndex.

Definition backend_of (id : option string) (zIndex z_index : option Z)
    : BackendNote.t :=
  BackendNote.mk id 0 0 150 150 yellow "H" EmptyString zIndex z_index.

(** A mounted hook whose first session is still connecting. *)
Definition mounted : Hook := @mount test_host initial.

(** The same hook once that session is open. *)
Definition opened : Hook := open_event 0%nat mounted.

(** A collection with stacking orders a:3, b:5, c:2. *)
Definition board : Hook :=
  onmessage (Init (Some [Some (backend_of (Some "a") (Some 3) None);
                         Some (backend_of (Some "b") (Some 5) None);
                         Some (backend_of (Some "c") None (Some 2))])) mounted.

(** An [init] element whose id is ["__proto__"], and the mounted hook once
    an [init] frame with that element alone has arrived. *)
Definition proto_element : BackendNote.t :=
  backend_of (Some "__proto__") (Some 7) None.

Definition proto_board : Hook :=
  onmessage (Init (Some [Some proto_element])) mounted.

(** ** Further code of the hook's callers *)

(** A note as it comes back from the wire after [upsertNote] serialised it:
    the same fields, the zIndex under its camelCase name. *)
Definition as_backend (note : Note.t) : BackendNote.t :=
  BackendNote.mk (Some (Note.id note))
    (Note.x note) (Note.y note) (Note.w note) (Note.h note)
    (Note.style note) (Note.header note) (Note.content note)
    (Note.zIndex note) None.

(** The element carries no zIndex, under either name, that is zero or
    negative. *)
Definition provided_positive (n : option BackendNote.t) : bool :=
  match n with
  | Some backendNote =>
      match backendZIndex backendNote with
      | Some z => bool_decide (0 < z)
      | None => true
      end
  | None => true
  end.

(** The event is not an [init] frame with a zero or negative zIndex. *)
Definition init_positive (e : Event) : bool :=
  match e with
  | Received (Init (Some msg_notes)) => forallb provided_positive msg_notes
  | _ => true
  end.

(** The event is not the hook's effect running again. *)
Definition not_Mounted (e : Event) : bool :=
  match e with Mounted => false | _ => true end.

(** Every stored zIndex is at least 1. *)
Definition all_positive (m : gmap string Note.t) : Prop :=
  ∀ k n, m !! k = Some n → ∃ z, Note.zIndex n = Some z ∧ 1 ≤ z.

(** The prototype of the collection object, when an [init] frame made it
    a note, has a zIndex of at least 1. *)
Definition proto_positive (proto : option Note.t) : Prop :=
  ∀ p, proto = Some p → ∃ z, Note.zIndex p = Some z ∧ 1 ≤ z.

(** Every note is stored under its own id, with a zIndex. *)
Definition well_keyed (m : gmap string Note.t) : Prop :=
  ∀ k n, m !! k = Some n → Note.id n = k ∧ is_Some (Note.zIndex n).

(** Every retry delay ever scheduled lies between 1 and 30 seconds. *)
Definition delays_bounded (s : Hook) : Prop :=
  ∀ t delay, timers s !! t = Some (Some delay) → 1000 ≤ delay ≤ 30000.

(** The hook is unmounted and holds no socket. *)
Definition disposed (s : Hook) : Prop :=
  isMountedRef s = false ∧ socketRef s = None.

(** [boardBounds] of [App]. *)
Record Size := { width : Z; height : Z }.

Definition boardBounds (notes : gmap string Note.t) : Size :=
  let noteArray := (map_to_list notes).*2 in
  match noteArray with
  | [] => {| width := 2000; height := 2000 |}
  | _ :: _ =>
      let '(maxX, maxY) :=
        foldl (λ '(maxX, maxY) note,
                 (Z.max maxX (Note.x note + Note.w note),
                  Z.max maxY (Note.y note + Note.h note)))
              (0, 0) noteArray in
      {| width := Z.max 2000 (maxX + 500); height := Z.max 2000 (maxY + 500) |}
  end.

Section AppAdd.
Context {host : Runtime}.

(** [handleAddNote]; [uuid] is the value of [crypto.randomUUID()] and
    [maxZIndex] the value the handler closes over. *)
Definition handleAddNote (maxZIndex : Z) (uuid : string) (s : Hook) : Hook :=
  let newNote :=
    Note.mk uuid 50 50 250 250 yellow "New Sticky Note" EmptyString
            (Some (number_add maxZIndex 1)) in
  upsertNote newNote s.

(** The handler of the render of the current collection. *)
Definition add_note (uuid : string) (s : Hook) : Hook :=
  handleAddNote (maxZIndex (notes s)) uuid s.

End AppAdd.

(** ** src/components/Card.tsx: the calls of [onUpdate] *)

(** [Partial<Note>] *)
Module Partial.
Record t := mk {
  id : option string;
  x : option Z; y : option Z; w : option Z; h : option Z;
  style : option CardStyle;
  header : option string;
  content : option string;
  zIndex : option (option Z)
}.

(** [{}] *)
Definition none : t := mk None None None None None None None None None.
End Partial.

Module Card.

(** [{ ...note, ...updates }] *)
Definition spread (note : Note.t) (updates : Partial.t) : Note.t :=
  Note.mk
    (default (Note.id note) (Partial.id updates))
    (default (Note.x note) (Partial.x updates))
    (default (Note.y note) (Partial.y updates))
    (default (Note.w note) (Partial.w updates))
    (default (Note.h note) (Partial.h updates))
    (default (Note.style note) (Partial.style updates))
    (default (Note.header note) (Partial.header updates))
    (default (Note.content note) (Partial.content updates))
    (default (Note.zIndex note) (Partial.zIndex updates)).

(** The refs of one card, the timers it has set (while one is pending it
    holds its delay and the updates its callback closes over), and the
    notes it has handed to [onUpdate], oldest first. *)
Record t := mk {
  latestNoteRef : Note.t;
  debounceTimer : option nat;
  timers : list (option (Z * Partial.t));
  onUpdate_calls : list Note.t
}.

Definition set_latestNoteRef (note : Note.t) (c : t) : t :=
  mk note (debounceTimer c) (timers c) (onUpdate_calls c).

Definition set_debounceTimer (r : option nat) (c : t) : t :=
  mk (latestNoteRef c) r (timers c) (onUpdate_calls c).

Definition set_timers (l : list (option (Z * Partial.t))) (c : t) : t :=
  mk (latestNoteRef c) (debounceTimer c) l (onUpdate_calls c).

(** [onUpdate(note)] *)
Definition onUpdate (note : Note.t) (c : t) : t :=
  mk (latestNoteRef c) (debounceTimer c) (timers c) (onUpdate_calls c ++ [note]).

Definition setTimeout (updates : Partial.t) (delay : Z) (c : t) : nat * t :=
  (length (timers c), set_timers (timers c ++ [Some (delay, updates)]) c).

Definition clearTimeout (timer : nat) (c : t) : t :=
  set_timers (<[timer := None]> (timers c)) c.

(** [if (debounceTimer.current) clearTimeout(debounceTimer.current)] *)
Definition clear_pending (c : t) : t :=
  match debounceTimer c with
  | Some timer => clearTimeout timer c
  | None => c
  end.

Definition debouncedUpdate (updates : Partial.t) (c : t) : t :=
  let c1 := clear_pending c in
  let '(timer, c2) := setTimeout updates 300 c1 in
  set_debounceTimer (Some timer) c2.

(** One entry of the [ResizeObserver] callback, with the measured size. *)
Definition resized (width height : Z) (c : t) : t :=
  let note := latestNoteRef c in
  if bool_decide (2 < Z.abs (width - Note.w note)) ||
     bool_decide (2 < Z.abs (height - Note.h note))
  then
    let constrainedWidth := Z.max 150 width in
    let constrainedHeight := Z.max 150 height in
    let c1 := clear_pending c in
    let updates :=
      Partial.mk None None None (Some constrainedWidth) (Some constrainedHeight)
                 None None None None in
    let '(timer, c2) := setTimeout updates 200 c1 in
    set_debounceTimer (Some timer) c2
  else c.

(** A pending timer fires: its callback calls [onUpdate] with the latest
    note and its updates, then forgets the timer. *)
Definition timer_fires (timer : nat) (c : t) : t :=
  match timers c !! timer with
  | Some (Some (_, updates)) =>
      let c1 := set_timers (<[timer := None]> (timers c)) c in
      let c2 := onUpdate (spread (latestNoteRef c1) updates) c1 in
      set_debounceTimer None c2
  | _ => c
  end.

(** The cleanup of the card's effects. *)
Definition cleanup (c : t) : t :=
  match debounceTimer c with
  | Some timer => set_debounceTimer None (clearTimeout timer c)
  | None => c
  end.

(** A render with a new [note] prop: [latestNoteRef.current = note]. *)
Definition render (note : Note.t) (c : t) : t := set_latestNoteRef note c.

(** The pointer-down handlers and [onDragStart]: pop to front. *)
Definition pop_to_front (c : t) : t :=
  onUpdate (spread (latestNoteRef c) Partial.none) c.

Definition onDragEnd (offset_x offset_y : Z) (c : t) : t :=
  let newX := Z.max 0 (Note.x (latestNoteRef c) + offset_x) in
  let newY := Z.max 0 (Note.y (latestNoteRef c) + offset_y) in
  onUpdate (spread (latestNoteRef c)
              (Partial.mk None (Some newX) (Some newY) None None None None None None))
           c.

(** A click on a colour of the toolbar. *)
Definition pick_colour (colour : CardStyle) (c : t) : t :=
  onUpdate (spread (latestNoteRef c)
              (Partial.mk None None None None None (Some colour) None None None))
           c.

Inductive Event :=
| Rendered (note : Note.t)
| Edited (updates : Partial.t)
| Resized (width height : Z)
| TimerFired (timer : nat)
| CleanedUp
| PoppedToFront
| DragEnded (offset_x offset_y : Z)
| ColourPicked (colour : CardStyle).

Definition handle (e : Event) (c : t) : t :=
  match e with
  | Rendered note => render note c
  | Edited updates => debouncedUpdate updates c
  | Resized width height => resized width height c
  | TimerFired timer => timer_fires timer c
  | CleanedUp => cleanup c
  | PoppedToFront => pop_to_front c
  | DragEnded offset_x offset_y => onDragEnd offset_x offset_y c
  | ColourPicked colour => pick_colour colour c
  end.

Fixpoint handle_all (l : list Event) (c : t) : t :=
  match l with
  | [] => c
  | e :: rest => handle_all rest (handle e c)
  end.

(** A burst of edits, no timer firing in between. *)
Fixpoint edit_all (l : list Partial.t) (c : t) : t :=
  match l with
  | [] => c
  | updates :: rest => edit_all rest (debouncedUpdate updates c)
  end.

(** A card as it mounts. *)
Definition mounted (note : Note.t) : t := mk note None [] [].

(** No timer is pending but the one [debounceTimer] holds. *)
Definition one_pending (c : t) : Prop :=
  ∀ timer entry, timers c !! timer = Some (Some entry) →
                 debounceTimer c = Some timer.

End Card.

(** [{ header: text }] and [{ content: text }] *)
Definition header_edit (text : string) : Partial.t :=
  Partial.mk None None None None None None (Some text) None None.

Definition content_edit (text : string) : Partial.t :=
  Partial.mk None None None None None None None (Some text) None.

(** ** src/components/Minimap.tsx: the bounds effect *)

Module Minimap.

(** The effect starts its minima at [Infinity] and its maxima at
    [-Infinity], so its numbers are the integers with both infinities, and
    [NaN] for the differences that have no value. *)
Inductive number := NaN | NegInfinity | Finite (z : Z) | Infinity.

Definition Math_min (a b : number) : number :=
  match a, b with
  | NaN, _ | _, NaN => NaN
  | NegInfinity, _ | _, NegInfinity => NegInfinity
  | Infinity, other | other, Infinity => other
  | Finite x, Finite y => Finite (Z.min x y)
  end.

Definition Math_max (a b : number) : number :=
  match a, b with
  | NaN, _ | _, NaN => NaN
  | Infinity, _ | _, Infinity => Infinity
  | NegInfinity, other | other, NegInfinity => other
  | Finite x, Finite y => Finite (Z.max x y)
  end.

Definition add (a b : number) : number :=
  match a, b with
  | NaN, _ | _, NaN => NaN
  | Infinity, NegInfinity | NegInfinity, Infinity => NaN
  | Infinity, _ | _, Infinity => Infinity
  | NegInfinity, _ | _, NegInfinity => NegInfinity
  | Finite x, Finite y => Finite (x + y)
  end.

Definition negate (a : number) : number :=
  match a with
  | NaN => NaN
  | NegInfinity => Infinity
  | Finite x => Finite (- x)
  | Infinity => NegInfinity
  end.

Definition sub (a b : number) : number := add a (negate b).

Definition MINIMAP_SIZE : Z := 200.
Definition PADDING : Z := 20.

Record Bounds := { minX : number; minY : number; maxX : number; maxY : number }.

(** The body of [noteArray.forEach]. *)
Definition extend (acc : number * number * number * number) (note : Note.t)
    : number * number * number * number :=
  let '(minX, minY, maxX, maxY) := acc in
  (Math_min minX (Finite (Note.x note)),
   Math_min minY (Finite (Note.y note)),
   Math_max maxX (Finite (Note.x note + Note.w note)),
   Math_max maxY (Finite (Note.y note + Note.h note))).

(** The value the first effect hands to [setBounds]. *)
Definition bounds (notes : gmap string Note.t) : Bounds :=
  let noteArray := (map_to_list notes).*2 in
  match noteArray with
  | [] => Build_Bounds (Finite 0) (Finite 0) (Finite 1000) (Finite 1000)
  | _ :: _ =>
      let '(minX, minY, maxX, maxY) :=
        foldl extend (Infinity, Infinity, NegInfinity, NegInfinity) noteArray in
      let minX := Math_max (Finite 0) (sub minX (Finite PADDING)) in
      let minY := Math_max (Finite 0) (sub minY (Finite PADDING)) in
      let maxX := add maxX (Finite PADDING) in
      let maxY := add maxY (Finite PADDING) in
      let width := Math_max (Finite 1000) (sub maxX minX) in
      let height := Math_max (Finite 1000) (sub maxY minY) in
      Build_Bounds minX minY (add minX width) (add minY height)
  end.

End Minimap.

(** * Properties *)

(** Case analysis on every [match] of the goal. *)
Ltac split_cases :=
  repeat match goal with
         | |- context [match ?x with _ => _ end] => destruct x
         end; try done.

(** Case analysis on every [match] of the goal, projections reduced as it
    goes. *)
Ltac handler_cases :=
  repeat (simpl;
          match goal with
          | |- context [match ?x with _ => _ end] => destruct x eqn:?
          end);
  simpl; try done.

(** ** Collections *)

Lemma existingZIndex_insert (m : gmap string Note.t) (k : string) (n : Note.t) :
  existingZIndex (<[k := n]> m) k = Note.zIndex n.
Proof. unfold existingZIndex. by rewrite lookup_insert_eq. Qed.

Lemma existingZIndex_insert_ne (m : gmap string Note.t) (k j : string) (n : Note.t) :
  k ≠ j → existingZIndex (<[k := n]> m) j = existingZIndex m j.
Proof. intros Hne. unfold existingZIndex. by rewrite lookup_insert_ne. Qed.

Lemma known_zIndex_own (m : gmap string Note.t) (proto : option Note.t)
    (k : string) :
  k ≠ "__proto__" ∨ is_Some (m !! k) →
  known_zIndex m proto k = existingZIndex m k.
Proof.
  unfold known_zIndex, existingZIndex. intros [Hne | [n Hn]].
  - destruct (m !! k); [done|]. by rewrite bool_decide_eq_false_2.
  - by rewrite Hn.
Qed.

Lemma init_callback_lookup (acc : gmap string Note.t * option Note.t)
    (n : option BackendNote.t) (index : nat) (k : string) :
  (init_callback acc n index).1 !! k =
    match n with
    | Some b =>
        if bool_decide (BackendNote.id b = Some k) && truthy k
           && negb (bool_decide (k = "__proto__"))
        then Some (normalizedNote k b (init_zIndex b index))
        else acc.1 !! k
    | None => acc.1 !! k
    end.
Proof.
  destruct n as [b|]; [|done]. simpl.
  destruct (BackendNote.id b) as [k'|] eqn:Hid.
  - destruct (decide (k' = k)) as [->|Hne].
    + rewrite (bool_decide_eq_true_2 (Some k = Some k)) by done. simpl.
      destruct (truthy k); simpl; [|done].
      case_bool_decide; simpl; [done | apply lookup_insert_eq].
    + rewrite (bool_decide_eq_false_2 (Some k' = Some k)) by congruence. simpl.
      destruct (truthy k'); [|done].
      case_bool_decide; simpl; [done | by rewrite lookup_insert_ne].
  - by rewrite bool_decide_eq_false_2.
Qed.

Lemma init_callback_proto (acc : gmap string Note.t * option Note.t)
    (n : option BackendNote.t) (index : nat) :
  (init_callback acc n index).2 =
    match n with
    | Some b =>
        if bool_decide (BackendNote.id b = Some "__proto__")
        then Some (normalizedNote "__proto__" b (init_zIndex b index))
        else acc.2
    | None => acc.2
    end.
Proof.
  destruct n as [b|]; [|done]. simpl.
  destruct (BackendNote.id b) as [k'|] eqn:Hid.
  - destruct (decide (k' = "__proto__")) as [->|Hne].
    + by rewrite bool_decide_eq_true_2.
    + rewrite (bool_decide_eq_false_2 (Some k' = _)) by congruence.
      destruct (truthy k'); [|done]. by rewrite bool_decide_eq_false_2.
  - by rewrite bool_decide_eq_false_2.
Qed.

Lemma reduce_init_untouched (l : list (option BackendNote.t)) (k : string) :
  ∀ (index : nat) (acc : gmap string Note.t * option Note.t),
  (∀ j b, l !! j = Some (Some b) → BackendNote.id b ≠ Some k) →
  (reduce init_callback l index acc).1 !! k = acc.1 !! k.
Proof.
  induction l as [|n l IH]; intros index acc Hl; [done|].
  simpl. rewrite IH.
  - rewrite init_callback_lookup. destruct n as [b|]; [|done].
    rewrite bool_decide_eq_false_2; [done|]. by apply (Hl 0%nat).
  - intros j b Hj. by apply (Hl (S j)).
Qed.

Lemma reduce_init_proto_key (l : list (option BackendNote.t)) :
  ∀ (index : nat) (acc : gmap string Note.t * option Note.t),
  (reduce init_callback l index acc).1 !! "__proto__" = acc.1 !! "__proto__".
Proof.
  induction l as [|n l IH]; intros index acc; [done|].
  simpl. rewrite IH, init_callback_lookup. destruct n as [b|]; [|done].
  rewrite (bool_decide_eq_true_2 ("__proto__" = _)) by done.
  by rewrite andb_false_r.
Qed.

Lemma reduce_init_last (l : list (option BackendNote.t)) (k : string) :
  ∀ (index : nat) (acc : gmap string Note.t * option Note.t) (i : nat)
    (b : BackendNote.t),
  l !! i = Some (Some b) → BackendNote.id b = Some k → truthy k = true →
  k ≠ "__proto__" →
  (∀ j b', (i < j)%nat → l !! j = Some (Some b') → BackendNote.id b' ≠ Some k) →
  (reduce init_callback l index acc).1 !! k =
    Some (normalizedNote k b (init_zIndex b (index + i))).
Proof.
  induction l as [|n l IH]; intros index acc i b Hi Hid Hk Hne Hlater; [done|].
  destruct i as [|i]; simpl in *.
  - injection Hi as ->. rewrite reduce_init_untouched.
    + rewrite init_callback_lookup, bool_decide_eq_true_2, Hk by done.
      rewrite (bool_decide_eq_false_2 (k = _)) by done.
      simpl. by rewrite Nat.add_0_r.
    + intros j b' Hj. apply (Hlater (S j)); [lia | done].
  - rewrite (IH (S index) _ i b Hi Hid Hk Hne).
    + do 3 f_equal. lia.
    + intros j b' Hij Hj. apply (Hlater (S j)); [lia | done].
Qed.

Lemma reduce_init_lookup (l : list (option BackendNote.t)) (k : string) (n : Note.t) :
  ∀ (index : nat) (acc : gmap string Note.t * option Note.t),
  (reduce init_callback l index acc).1 !! k = Some n →
  acc.1 !! k = Some n ∨
  ∃ i b, l !! i = Some (Some b) ∧ BackendNote.id b = Some k ∧ truthy k = true ∧
         k ≠ "__proto__" ∧
         n = normalizedNote k b (init_zIndex b (index + i)).
Proof.
  induction l as [|e l IH]; intros index acc Hred; [by left|].
  simpl in Hred. apply IH in Hred as [Hacc | (i & b & Hi & Hid & Hk & Hne & ->)].
  - rewrite init_callback_lookup in Hacc. destruct e as [b|]; [|by left].
    destruct (bool_decide (BackendNote.id b = Some k)) eqn:Hid; simpl in Hacc;
      [|by left].
    destruct (truthy k) eqn:Hk; [|by left]. simpl in Hacc.
    case_bool_decide as Hproto; simpl in Hacc; [by left|].
    apply bool_decide_eq_true_1 in Hid. injection Hacc as <-.
    right. exists 0%nat, b. by rewrite Nat.add_0_r.
  - right. exists (S i), b. repeat split; try done. do 2 f_equal. lia.
Qed.

Lemma reduce_init_is_Some (l : list (option BackendNote.t)) (k : string) :
  ∀ (index : nat) (acc : gmap string Note.t * option Note.t),
  k ≠ "__proto__" →
  is_Some ((reduce init_callback l index acc).1 !! k) ↔
  is_Some (acc.1 !! k) ∨
  ∃ i b, l !! i = Some (Some b) ∧ BackendNote.id b = Some k ∧ truthy k = true.
Proof.
  induction l as [|e l IH]; intros index acc Hne; simpl.
  - split; [by left | intros [H | (i & b & Hi & _)]; [done | by destruct i]].
  - rewrite IH, init_callback_lookup by done.
    rewrite (bool_decide_eq_false_2 (k = _)) by done. split.
    + intros [Hacc | (i & b & Hi & Hid & Hk)].
      * destruct e as [b|]; [|by left].
        destruct (bool_decide (BackendNote.id b = Some k)) eqn:Hid; simpl in Hacc;
          [|by left].
        destruct (truthy k) eqn:Hk; [|by left].
        apply bool_decide_eq_true_1 in Hid. right. by exists 0%nat, b.
      * right. by exists (S i), b.
    + intros [Hacc | (i & b & Hi & Hid & Hk)].
      * left. destruct e as [b|]; [|done].
        by destruct (bool_decide (BackendNote.id b = Some k) && truthy k).
      * destruct i as [|i]; simpl in Hi.
        -- injection Hi as ->. left.
           by rewrite bool_decide_eq_true_2, Hk.
        -- right. by exists i, b.
Qed.

Lemma reduce_init_proto (l : list (option BackendNote.t)) (p : Note.t) :
  ∀ (index : nat) (acc : gmap string Note.t * option Note.t),
  (reduce init_callback l index acc).2 = Some p →
  acc.2 = Some p ∨
  ∃ i b, l !! i = Some (Some b) ∧ BackendNote.id b = Some "__proto__" ∧
         p = normalizedNote "__proto__" b (init_zIndex b (index + i)).
Proof.
  induction l as [|e l IH]; intros index acc Hred; [by left|].
  simpl in Hred. apply IH in Hred as [Hacc | (i & b & Hi & Hid & ->)].
  - rewrite init_callback_proto in Hacc. destruct e as [b|]; [|by left].
    case_bool_decide as Hid; [|by left]. injection Hacc as <-.
    right. exists 0%nat, b. by rewrite Nat.add_0_r.
  - right. exists (S i), b. repeat split; try done. do 2 f_equal. lia.
Qed.

Lemma reduce_init_no_proto (l : list (option BackendNote.t)) :
  ∀ (index : nat) (acc : gmap string Note.t * option Note.t),
  (∀ j b, l !! j = Some (Some b) → BackendNote.id b ≠ Some "__proto__") →
  (reduce init_callback l index acc).2 = acc.2.
Proof.
  induction l as [|n l IH]; intros index acc Hl; [done|].
  simpl. rewrite IH.
  - rewrite init_callback_proto. destruct n as [b|]; [|done].
    rewrite bool_decide_eq_false_2; [done|]. by apply (Hl 0%nat).
  - intros j b Hj. by apply (Hl (S j)).
Qed.

(** ** Inbound frames *)

Lemma existingZIndex_is_Some (m : gmap string Note.t) (k : string) (z : Z) :
  existingZIndex m k = Some z → is_Some (m !! k).
Proof. unfold existingZIndex. by destruct (m !! k). Qed.

Lemma update_frame_monotone (s : Hook) (note : option BackendNote.t)
    (i : string) (before : Z) :
  existingZIndex (notes s) i = Some before →
  ∃ after, existingZIndex (notes (onmessage (Update note) s)) i = Some after ∧
           before ≤ after.
Proof.
  intros Hbefore.
  assert (Hsame : ∃ after, existingZIndex (notes s) i = Some after ∧ before ≤ after)
    by (exists before; split; [done | lia]).
  destruct note as [b|]; [|done]. simpl.
  destruct (BackendNote.id b) as [k|]; [|done].
  destruct (truthy k); [|done]. simpl. unfold update_updater.
  destruct (decide (k = i)) as [->|Hne].
  - rewrite existingZIndex_insert. simpl. eexists; split; [done|].
    rewrite known_zIndex_own by (right; by eapply existingZIndex_is_Some).
    unfold update_finalZIndex. rewrite Hbefore. simpl.
    destruct (backendZIndex b) as [z|]; [case_bool_decide|]; lia.
  - by rewrite existingZIndex_insert_ne.
Qed.

(** X23.  An inbound [update] that carries a note with a non-empty id
    other than ["__proto__"] stores, for that id, the zIndex the spec's rule
    gives: the remote value (camelCase, else snake_case), when present and
    positive, merged by maximum with the local value if there is one;
    otherwise the local value, else 1.  No entity's zIndex decreases
    through this path, whatever its id. *)
Theorem inbound_update_zIndex (s : Hook) (b : BackendNote.t) (k : string) :
  BackendNote.id b = Some k → truthy k = true →
  let s' := onmessage (Update (Some b)) s in
  (k ≠ "__proto__" →
   existingZIndex (notes s') k =
     Some (spec_update_zIndex (BackendNote.zIndex b) (BackendNote.z_index b)
             (existingZIndex (notes s) k))) ∧
  ∀ i before, existingZIndex (notes s) i = Some before →
    ∃ after, existingZIndex (notes s') i = Some after ∧ before ≤ after.
Proof.
  intros Hid Hk s'. split; [|intros i before; apply update_frame_monotone].
  intros Hne. subst s'. simpl. rewrite Hid, Hk. simpl. unfold update_updater.
  rewrite existingZIndex_insert. simpl. f_equal.
  rewrite known_zIndex_own by by left.
  unfold update_finalZIndex, spec_update_zIndex, backendZIndex, nullish_or.
  destruct (BackendNote.zIndex b) as [z|], (BackendNote.z_index b) as [z'|],
    (existingZIndex (notes s) k) as [l|]; simpl; try done;
    case_bool_decide; simpl; try done; lia.
Qed.

Lemma inbound_update_zIndex_witness :
  existingZIndex
    (notes (onmessage (Update (Some (backend_of (Some "a") (Some 1) None))) board))
    "a" = Some 3.
Proof.
  apply (proj1 (inbound_update_zIndex board
                  (backend_of (Some "a") (Some 1) None) "a" eq_refl eq_refl)).
  vm_compute. discriminate.
Defined.

(** C2, at the input where the code departs from it.  After an [init]
    whose one element has the id ["__proto__"] and zIndex 7 the collection
    is empty, and an [update] for that id without a zIndex stores 7, where
    the spec's rule gives 1 for an id that the collection lacks:
    [prev["__proto__"]?.zIndex] reads the prototype that the [init] left
    on the collection object. *)
Lemma inbound_update_reads_prototype :
  let b := backend_of (Some "__proto__") None None in
  notes proto_board = ∅ ∧
  existingZIndex (notes (onmessage (Update (Some b)) proto_board)) "__proto__"
    = Some 7 ∧
  spec_update_zIndex (BackendNote.zIndex b) (BackendNote.z_index b)
    (existingZIndex (notes proto_board) "__proto__") = 1.
Proof. repeat split. Qed.

(** C3, as the code has it.  An [init] element that is accepted, has an id
    other than ["__proto__"] and is the last of its batch with its id, is
    stored with the zIndex field if that field is present, whatever its
    sign; else with the snake_case field if present, whatever its sign;
    else with its 1-based position in the batch. *)
Theorem init_zIndex_stored (s : Hook) (elems : list (option BackendNote.t))
    (i : nat) (b : BackendNote.t) (k : string) :
  elems !! i = Some (Some b) → BackendNote.id b = Some k → truthy k = true →
  k ≠ "__proto__" →
  (∀ j b', (i < j)%nat → elems !! j = Some (Some b') → BackendNote.id b' ≠ Some k) →
  existingZIndex (notes (onmessage (Init (Some elems)) s)) k =
    Some (match BackendNote.zIndex b with
          | Some z => z
          | None => match BackendNote.z_index b with
                    | Some z => z
                    | None => Z.of_nat i + 1
                    end
          end).
Proof.
  intros Hi Hid Hk Hne Hlast. simpl. unfold existingZIndex, noteMap.
  rewrite (reduce_init_last elems k 0%nat (∅, None) i b Hi Hid Hk Hne Hlast).
  simpl. unfold init_zIndex, backendZIndex, nullish_or.
  by destruct (BackendNote.zIndex b), (BackendNote.z_index b).
Qed.

Lemma init_zIndex_stored_witness :
  existingZIndex
    (notes (onmessage (Init (Some [Some (backend_of (Some "a") (Some (-3)) (Some 7));
                                   Some (backend_of (Some "b") None None)])) initial))
    "a" = Some (-3).
Proof.
  apply (init_zIndex_stored initial _ 0%nat
           (backend_of (Some "a") (Some (-3)) (Some 7)) "a"); try reflexivity.
  - vm_compute. discriminate.
  - intros [|[|j]] b' Hlt Hj; simpl in Hj; [lia | by injection Hj as <- | done].
Defined.

(** C3 as the spec words it fails: an element whose zIndex field is present
    and zero is stored with zIndex 0, where the spec's rule gives its
    position, 1. *)
Lemma init_zIndex_zero_kept :
  let zero := backend_of (Some "a") (Some 0) None in
  let stored :=
    existingZIndex (notes (onmessage (Init (Some [Some zero])) initial)) "a" in
  stored = Some 0 ∧
  stored ≠ Some (spec_init_zIndex (BackendNote.zIndex zero)
                                  (BackendNote.z_index zero) 1).
Proof. split; [reflexivity | discriminate]. Qed.

(** C8, at the input where the code departs from it.  An [init] frame with
    two elements, the first with the id ["__proto__"] and the second
    without an id, leaves the collection empty: the assignment
    [acc["__proto__"] = normalizedNote] makes the note the prototype of the
    accumulator and stores no entry.  With any other id in its place, here
    ["a"], the same frame stores the one valid entity. *)
Theorem init_proto_element_lost :
  let invalid := backend_of None (Some 9) None in
  let s' := onmessage (Init (Some [Some proto_element; Some invalid])) board in
  notes s' = ∅ ∧
  notes_proto s' = Some (Note.mk "__proto__" 0 0 150 150 yellow "H" EmptyString (Some 7)) ∧
  notes (onmessage (Init (Some [Some (backend_of (Some "a") (Some 7) None);
                                Some invalid])) board) =
    {[ "a" := Note.mk "a" 0 0 150 150 yellow "H" EmptyString (Some 7) ]}.
Proof. repeat split. Qed.

Lemma init_stored_fields (k : string) (b : BackendNote.t) (i : nat) :
  normalizedNote k b (init_zIndex b i) =
    Note.mk k (BackendNote.x b) (BackendNote.y b) (BackendNote.w b)
      (BackendNote.h b) (BackendNote.style b) (BackendNote.header b)
      (BackendNote.content b)
      (Some (match BackendNote.zIndex b with
             | Some z => z
             | None => match BackendNote.z_index b with
                       | Some z => z
                       | None => Z.of_nat i + 1
                       end
             end)).
Proof.
  unfold normalizedNote, init_zIndex, backendZIndex, nullish_or.
  by destruct (BackendNote.zIndex b), (BackendNote.z_index b).
Qed.

(** X22.  An [init] frame whose [notes] is not an array changes nothing.
    An [init] frame with an array replaces the collection: for every id
    but ["__proto__"] the new collection has an entry exactly when some
    element carries that id, non-empty; it has no entry for ["__proto__"];
    and every entry copies the fields of an element with its id and takes
    the zIndex field, else the snake_case field, else the element's 1-based
    position.  An element without an id is skipped: with two elements of
    which one lacks its id, the collection holds the other alone. *)
Theorem init_frame_validation (s : Hook) :
  onmessage (Init None) s = s ∧
  (∀ elems k, k ≠ "__proto__" →
     is_Some (notes (onmessage (Init (Some elems)) s) !! k) ↔
     ∃ i b, elems !! i = Some (Some b) ∧ BackendNote.id b = Some k ∧
            truthy k = true) ∧
  (∀ elems, notes (onmessage (Init (Some elems)) s) !! "__proto__" = None) ∧
  (∀ elems k n,
     notes (onmessage (Init (Some elems)) s) !! k = Some n →
     ∃ i b, elems !! i = Some (Some b) ∧ BackendNote.id b = Some k ∧
       n = Note.mk k (BackendNote.x b) (BackendNote.y b) (BackendNote.w b)
             (BackendNote.h b) (BackendNote.style b) (BackendNote.header b)
             (BackendNote.content b)
             (Some (match BackendNote.zIndex b with
                    | Some z => z
                    | None => match BackendNote.z_index b with
                              | Some z => z
                              | None => Z.of_nat i + 1
                              end
                    end))) ∧
  (∀ b b' k,
     BackendNote.id b = Some k → truthy k = true → k ≠ "__proto__" →
     BackendNote.id b' = None →
     let entry (position : Z) :=
       Note.mk k (BackendNote.x b) (BackendNote.y b) (BackendNote.w b)
         (BackendNote.h b) (BackendNote.style b) (BackendNote.header b)
         (BackendNote.content b)
         (Some (match BackendNote.zIndex b with
                | Some z => z
                | None => match BackendNote.z_index b with
                          | Some z => z
                          | None => position
                          end
                end)) in
     notes (onmessage (Init (Some [Some b; Some b'])) s) = {[ k := entry 1 ]} ∧
     notes (onmessage (Init (Some [Some b'; Some b])) s) = {[ k := entry 2 ]}).
Proof.
  split; [done|]. split_and!.
  - intros elems k Hne. simpl. unfold noteMap.
    rewrite reduce_init_is_Some by done. simpl.
    rewrite lookup_empty. split.
    + by intros [[? ?] | H].
    + by right.
  - intros elems. simpl. unfold noteMap. by rewrite reduce_init_proto_key.
  - intros elems k n Hn. simpl in Hn. unfold noteMap in Hn.
    apply reduce_init_lookup in Hn as [Hn | (i & b & Hi & Hid & _ & _ & ->)].
    + by destruct (lookup_empty_Some k n).
    + exists i, b. split; [done|]. split; [done|]. apply init_stored_fields.
  - intros b b' k Hid Hk Hne Hnone entry. subst entry. simpl.
    unfold noteMap. simpl.
    rewrite Hid, Hk, Hnone. rewrite bool_decide_eq_false_2 by done. simpl.
    rewrite !insert_empty, !init_stored_fields. done.
Qed.

Lemma init_frame_validation_witness :
  notes (onmessage (Init (Some [Some (backend_of (Some "a") (Some 4) None);
                                Some (backend_of None (Some 9) None)])) board) =
    {[ "a" := Note.mk "a" 0 0 150 150 yellow "H" EmptyString (Some 4) ]}.
Proof.
  apply (proj1 (proj2 (proj2 (proj2 (proj2 (init_frame_validation board))))
                  (backend_of (Some "a") (Some 4) None)
                  (backend_of None (Some 9) None) "a" eq_refl eq_refl
                  ltac:(discriminate) eq_refl)).
Defined.

(** ** Local intents *)

Lemma notes_enqueue (payload : string) (s : Hook) :
  notes (enqueue payload s) = notes s.
Proof. unfold enqueue. by case_bool_decide. Qed.

Lemma notes_WebSocket_send (ws : nat) (msg : string) (s : Hook) :
  notes (WebSocket_send ws msg s) = notes s.
Proof.
  unfold WebSocket_send. destruct (sockets s !! ws) as [sock|]; [|done].
  by destruct (readyState sock).
Qed.

Lemma notes_send_or_enqueue (payload : string) (s : Hook) :
  notes (send_or_enqueue payload s) = notes s.
Proof.
  unfold send_or_enqueue. destruct (is_OPEN _); [|apply notes_enqueue].
  destruct (socketRef s); [apply notes_WebSocket_send | done].
Qed.

Section LocalIntents.
Context {host : Runtime}.

Lemma notes_upsertNote (note : Note.t) (s : Hook) :
  notes (upsertNote note s) =
    <[Note.id note :=
        Note.with_zIndex
          (upsert_finalZIndex (Note.zIndex note)
             (known_zIndex (notes s) (notes_proto s) (Note.id note))) note]>
      (notes s).
Proof. done. Qed.

Lemma notes_deleteNote (id : string) (s : Hook) :
  notes (deleteNote id s) = delete id (notes s).
Proof. unfold deleteNote. by rewrite notes_send_or_enqueue. Qed.

Lemma upsertNote_positive (note : Note.t) (s : Hook) (z : Z) :
  Note.zIndex note = Some z → 0 < z →
  existingZIndex (notes (upsertNote note s)) (Note.id note) = Some z.
Proof.
  intros Hz Hpos. rewrite notes_upsertNote, existingZIndex_insert. simpl.
  unfold upsert_finalZIndex. rewrite Hz. by rewrite bool_decide_eq_true_2.
Qed.

Lemma upsertNote_keeps (note : Note.t) (s : Hook) :
  Note.id note ≠ "__proto__" →
  match Note.zIndex note with Some z => z ≤ 0 | None => True end →
  existingZIndex (notes (upsertNote note s)) (Note.id note) =
    Some (default 1 (existingZIndex (notes s) (Note.id note))).
Proof.
  intros Hne Hz. rewrite notes_upsertNote, existingZIndex_insert. simpl.
  rewrite known_zIndex_own by by left.
  unfold upsert_finalZIndex. destruct (Note.zIndex note) as [z|].
  - rewrite bool_decide_eq_false_2 by lia.
    by destruct (existingZIndex (notes s) (Note.id note)).
  - by destruct (existingZIndex (notes s) (Note.id note)).
Qed.

Lemma change_monotone (op : Change) (s : Hook) (i : string) (before : Z) :
  lowers op s = false →
  existingZIndex (notes s) i = Some before →
  ∃ after, existingZIndex (notes (apply_change op s)) i = Some after ∧ before ≤ after.
Proof.
  intros Hlow Hbefore.
  destruct op as [note | note]; [|by apply update_frame_monotone].
  unfold apply_change. rewrite notes_upsertNote.
  destruct (decide (Note.id note = i)) as [<-|Hne].
  - rewrite existingZIndex_insert. simpl. eexists; split; [done|].
    rewrite known_zIndex_own by (right; by eapply existingZIndex_is_Some).
    simpl in Hlow. rewrite Hbefore in Hlow. unfold upsert_finalZIndex.
    rewrite Hbefore. destruct (Note.zIndex note) as [z|]; simpl; [|lia].
    case_bool_decide; simpl in *; [|lia].
    apply bool_decide_eq_false_1 in Hlow. lia.
  - rewrite existingZIndex_insert_ne by done. exists before. split; [done | lia].
Qed.

(** C1, as the code has it.  Through any run of local upserts and inbound
    [update] frames in which no local upsert asks for a positive zIndex
    below the stored one, an entity's zIndex never decreases.  A local
    upsert with a positive zIndex persists exactly that zIndex, be it lower
    than the stored one: the local path takes no maximum.  A local upsert
    whose zIndex is absent, zero or negative, for an id other than
    ["__proto__"], persists the zIndex stored for that id, and 1 when none
    is stored. *)
Theorem zIndex_never_decreases :
  (∀ (ops : list Change) (s : Hook) (i : string) (before : Z),
     none_lowers ops s = true →
     existingZIndex (notes s) i = Some before →
     ∃ after, existingZIndex (notes (changes ops s)) i = Some after ∧
              before ≤ after) ∧
  (∀ (note : Note.t) (s : Hook) (z : Z),
     Note.zIndex note = Some z → 0 < z →
     existingZIndex (notes (upsertNote note s)) (Note.id note) = Some z) ∧
  (∀ (note : Note.t) (s : Hook),
     Note.id note ≠ "__proto__" →
     match Note.zIndex note with Some z => z ≤ 0 | None => True end →
     existingZIndex (notes (upsertNote note s)) (Note.id note) =
       Some (match existingZIndex (notes s) (Note.id note) with
             | Some stored => stored
             | None => 1
             end)).
Proof.
  split; [|split; [apply upsertNote_positive | apply upsertNote_keeps]].
  induction ops as [|op ops IH]; intros s i before Hnone Hbefore; simpl in *.
  - exists before. split; [done | lia].
  - apply andb_true_iff in Hnone as [Hlow Hnone].
    apply negb_true_iff in Hlow.
    destruct (change_monotone op s i before Hlow Hbefore) as (mid & Hmid & Hle).
    destruct (IH _ i mid Hnone Hmid) as (after & Hafter & Hle').
    exists after. split; [done | lia].
Qed.

End LocalIntents.

Lemma zIndex_never_decreases_witness :
  ∃ after,
    existingZIndex
      (notes (@changes test_host
                [LocalUpsert (note_of "a" (Some 4));
                 RemoteUpdate (Some (backend_of (Some "a") (Some 1) None))]
                board)) "a" = Some after ∧ 3 ≤ after.
Proof.
  apply (proj1 (@zIndex_never_decreases test_host)); reflexivity.
Defined.

(** C1 as the spec words it fails: note a is stored with zIndex 3, and a
    local upsert of a with zIndex 2 leaves it stored with zIndex 2. *)
Lemma local_upsert_lowers_zIndex :
  ∃ before after,
    existingZIndex (notes board) "a" = Some before ∧
    existingZIndex (notes (@upsertNote test_host (note_of "a" (Some 2)) board)) "a"
      = Some after ∧
    after < before.
Proof. exists 3, 2. repeat split. Qed.

(** ** What each handler leaves alone *)

Lemma setNotes_same (s : Hook) :
  setNotes_object (notes s) (notes_proto s) s = s.
Proof. by destruct s. Qed.

Lemma WebSocket_send_frame (ws : nat) (msg : string) (s : Hook) :
  WebSocket_send ws msg s = set_sockets (sockets (WebSocket_send ws msg s)) s.
Proof. unfold WebSocket_send. destruct s. handler_cases. Qed.

Lemma set_readyState_frame (ws : nat) (rs : ReadyState) (s : Hook) :
  set_readyState ws rs s = set_sockets (sockets (set_readyState ws rs s)) s.
Proof. unfold set_readyState. destruct s. handler_cases. Qed.

Lemma WebSocket_close_frame (ws : nat) (s : Hook) :
  WebSocket_close ws s = set_sockets (sockets (WebSocket_close ws s)) s.
Proof. unfold WebSocket_close, set_readyState. destruct s. handler_cases. Qed.

Lemma flush_frame (ws : nat) (queue : list string) :
  ∀ s, flush ws queue s =
       set_messageQueue (messageQueue (flush ws queue s))
         (set_sockets (sockets (flush ws queue s)) s).
Proof.
  induction queue as [|msg rest IH]; intros s; [by destruct s|].
  simpl. etrans; [apply IH|].
  destruct (truthy msg); [rewrite WebSocket_send_frame|]; by destruct s.
Qed.

Lemma send_or_enqueue_frame (payload : string) (s : Hook) :
  send_or_enqueue payload s =
    set_messageQueue (messageQueue (send_or_enqueue payload s))
      (set_sockets (sockets (send_or_enqueue payload s)) s).
Proof.
  unfold send_or_enqueue. destruct (is_OPEN _).
  - destruct (socketRef s); [rewrite WebSocket_send_frame|]; by destruct s.
  - unfold enqueue. destruct s. handler_cases.
Qed.

Lemma notes_proto_send_or_enqueue (payload : string) (s : Hook) :
  notes_proto (send_or_enqueue payload s) = notes_proto s.
Proof. by rewrite send_or_enqueue_frame. Qed.

Lemma updaters_send_or_enqueue (payload : string) (s : Hook) :
  updaters (send_or_enqueue payload s) = updaters s.
Proof. by rewrite send_or_enqueue_frame. Qed.

Lemma onmessage_frame (data : Frame) (s : Hook) :
  onmessage data s =
    setNotes_object (notes (onmessage data s)) (notes_proto (onmessage data s)) s.
Proof. unfold onmessage. destruct s. handler_cases. Qed.

Lemma onclose_frame (s : Hook) :
  onclose s =
    set_reconnectTimeoutRef (reconnectTimeoutRef (onclose s))
      (set_timers (timers (onclose s))
         (setStatus (status (onclose s)) (set_socketRef None s))).
Proof. unfold onclose. destruct s. handler_cases. Qed.

Lemma open_event_frame (ws : nat) (s : Hook) :
  open_event ws s =
    set_messageQueue (messageQueue (open_event ws s))
      (set_sockets (sockets (open_event ws s))
         (set_reconnectAttempts (reconnectAttempts (open_event ws s))
            (setStatus (status (open_event ws s)) s))).
Proof.
  unfold open_event, onopen. rewrite (set_readyState_frame ws OPEN s). simpl.
  destruct (isMountedRef s); simpl.
  - rewrite flush_frame. by destruct s.
  - rewrite WebSocket_close_frame. by destruct s.
Qed.

Lemma close_event_frame (ws : nat) (s : Hook) :
  close_event ws s =
    set_reconnectTimeoutRef (reconnectTimeoutRef (close_event ws s))
      (set_timers (timers (close_event ws s))
         (setStatus (status (close_event ws s))
            (set_socketRef None
               (set_sockets (sockets (close_event ws s)) s)))).
Proof.
  unfold close_event. rewrite onclose_frame.
  rewrite (set_readyState_frame ws CLOSED s). by destruct s.
Qed.

Section Frames.
Context {host : Runtime}.

Lemma connect_frame (s : Hook) :
  connect s =
    set_socketRef (socketRef (connect s))
      (set_sockets (sockets (connect s)) (setStatus (status (connect s)) s)).
Proof. unfold connect. destruct s. handler_cases. Qed.

Lemma deleteNote_frame (id : string) (s : Hook) :
  deleteNote id s =
    setNotes (delete id (notes s))
      (set_messageQueue (messageQueue (deleteNote id s))
         (set_sockets (sockets (deleteNote id s)) s)).
Proof. unfold deleteNote. rewrite send_or_enqueue_frame. by destruct s. Qed.

Lemma perform_frame (i : Intent) (s : Hook) :
  perform i s =
    setNotes (notes (perform i s))
      (set_updaters (updaters (perform i s))
         (set_messageQueue (messageQueue (perform i s))
            (set_sockets (sockets (perform i s)) s))).
Proof.
  destruct i as [note|id]; unfold perform.
  - by destruct s.
  - rewrite deleteNote_frame. by destruct s.
Qed.

Lemma updater_runs_frame (k : nat) (s : Hook) :
  updater_runs k s =
    set_messageQueue (messageQueue (updater_runs k s))
      (set_sockets (sockets (updater_runs k s)) s).
Proof.
  unfold updater_runs. destruct (updaters s !! k) as [payload|].
  - rewrite send_or_enqueue_frame. by destruct s.
  - by destruct s.
Qed.

Lemma timer_fires_frame (t : nat) (s : Hook) :
  timer_fires t s =
    set_socketRef (socketRef (timer_fires t s))
      (set_sockets (sockets (timer_fires t s))
         (setStatus (status (timer_fires t s))
            (set_reconnectAttempts (reconnectAttempts (timer_fires t s))
               (set_timers (timers (timer_fires t s)) s)))).
Proof.
  unfold timer_fires, reconnect_callback.
  destruct (timers s !! t) as [[delay|]|]; try by destruct s.
  simpl. destruct (isMountedRef s); simpl; [|by destruct s].
  rewrite connect_frame. by destruct s.
Qed.

Lemma unmount_frame (s : Hook) :
  unmount s =
    set_socketRef None
      (set_sockets (sockets (unmount s))
         (set_reconnectTimeoutRef None
            (set_timers (timers (unmount s)) (set_isMountedRef false s)))).
Proof.
  unfold unmount. simpl. destruct (reconnectTimeoutRef s) eqn:Ht; simpl;
    (destruct (socketRef s) eqn:Hr; simpl; [rewrite WebSocket_close_frame|]);
    destruct s; simpl in *; by subst.
Qed.

(** The collection changes only by an inbound frame or a call, the record
    of updaters only by an upsert, the queue only by an open event, a
    delete or React running an updater. *)
Lemma handle_frame (e : Event) (s : Hook) :
  notes (handle e s) =
    match e with
    | Received data => notes (onmessage data s)
    | Intended i => notes (perform i s)
    | _ => notes s
    end ∧
  notes_proto (handle e s) =
    match e with
    | Received data => notes_proto (onmessage data s)
    | Intended i => None
    | _ => notes_proto s
    end ∧
  updaters (handle e s) =
    match e with
    | Intended (Upsert note) => updaters (upsertNote note s)
    | _ => updaters s
    end ∧
  messageQueue (handle e s) =
    match e with
    | Opened ws => messageQueue (open_event ws s)
    | Intended (Remove id) => messageQueue (deleteNote id s)
    | UpdaterRan k => messageQueue (updater_runs k s)
    | _ => messageQueue s
    end.
Proof.
  destruct e as [| |ws|data|ws|ws|t|[note|id]|k]; simpl.
  - unfold mount. by rewrite connect_frame.
  - by rewrite unmount_frame.
  - by rewrite open_event_frame.
  - by rewrite onmessage_frame.
  - by rewrite close_event_frame.
  - unfold onerror. by rewrite WebSocket_close_frame.
  - by rewrite timer_fires_frame.
  - done.
  - by rewrite deleteNote_frame.
  - by rewrite updater_runs_frame.
Qed.

Lemma local_frame (e : Event) (s : Hook) :
  is_local e = true →
  handle e s =
    setNotes_object (notes (handle e s)) (notes_proto (handle e s))
      (set_updaters (updaters (handle e s))
         (set_messageQueue (messageQueue (handle e s))
            (set_sockets (sockets (handle e s)) s))).
Proof.
  intros He. destruct e as [| |ws|data|ws|ws|t|i|k]; try done; simpl.
  - rewrite perform_frame. by destruct s.
  - rewrite updater_runs_frame. by destruct s.
Qed.

Lemma local_sockets_closed (e : Event) (s : Hook) :
  is_local e = true → socketRef s = None →
  sockets (handle e s) = sockets s.
Proof.
  intros He Href.
  assert (Hsend : ∀ payload s0, socketRef s0 = None →
            sockets (send_or_enqueue payload s0) = sockets s0).
  { intros payload s0 Hs0. unfold send_or_enqueue, current_readyState.
    rewrite Hs0. simpl. unfold enqueue. by case_bool_decide. }
  destruct e as [| |ws|data|ws|ws|t|[note|id]|k]; try done; simpl.
  - unfold deleteNote. by rewrite Hsend.
  - unfold updater_runs. destruct (updaters s !! k); [by rewrite Hsend | done].
Qed.

End Frames.

(** ** The outbound queue *)

Lemma last_n_length {A} (n : nat) (l : list A) : (length (last_n n l) ≤ n)%nat.
Proof. unfold last_n. rewrite length_drop. lia. Qed.

Lemma last_n_short {A} (n : nat) (l : list A) :
  (length l ≤ n)%nat → last_n n l = l.
Proof. intros Hlen. unfold last_n. by replace (length l - n)%nat with 0%nat by lia. Qed.

Lemma last_n_app {A} (n : nat) (l r : list A) :
  last_n n (last_n n l ++ r) = last_n n (l ++ r).
Proof.
  destruct (decide (length l ≤ n)%nat) as [Hle|Hgt].
  - by rewrite (last_n_short n l).
  - unfold last_n. rewrite !length_app, length_drop.
    rewrite <- drop_app_le by lia. rewrite drop_drop. f_equal. lia.
Qed.

Lemma enqueue_queue (payload : string) (s : Hook) :
  messageQueue (enqueue payload s) =
    (if bool_decide (MAX_QUEUE_SIZE ≤ length (messageQueue s))%nat
     then tail (messageQueue s) else messageQueue s) ++ [payload].
Proof. unfold enqueue. by case_bool_decide. Qed.

Lemma enqueue_last_n (payload : string) (s : Hook) :
  (length (messageQueue s) ≤ MAX_QUEUE_SIZE)%nat →
  messageQueue (enqueue payload s) =
    last_n MAX_QUEUE_SIZE (messageQueue s ++ [payload]).
Proof.
  intros Hlen. rewrite enqueue_queue. unfold last_n. rewrite length_app. simpl.
  case_bool_decide as Hfull.
  - replace (length (messageQueue s) + 1 - MAX_QUEUE_SIZE)%nat with 1%nat by lia.
    destruct (messageQueue s) as [|m q] eqn:Hq; [|done].
    unfold MAX_QUEUE_SIZE in Hfull. simpl in Hfull. lia.
  - by replace (length (messageQueue s) + 1 - MAX_QUEUE_SIZE)%nat with 0%nat by lia.
Qed.

Lemma current_readyState_enqueue (payload : string) (s : Hook) :
  current_readyState (enqueue payload s) = current_readyState s.
Proof. unfold enqueue. by case_bool_decide. Qed.

Lemma send_or_enqueue_closed (payload : string) (s : Hook) :
  is_OPEN (current_readyState s) = false →
  messageQueue (send_or_enqueue payload s) =
    (if bool_decide (MAX_QUEUE_SIZE ≤ length (messageQueue s))%nat
     then tail (messageQueue s) else messageQueue s) ++ [payload] ∧
  sockets (send_or_enqueue payload s) = sockets s ∧
  current_readyState (send_or_enqueue payload s) = current_readyState s.
Proof.
  intros Hclosed. unfold send_or_enqueue. rewrite Hclosed.
  rewrite enqueue_queue, current_readyState_enqueue. repeat split.
  unfold enqueue. by case_bool_decide.
Qed.


Lemma send_or_enqueue_closed_last_n (payload : string) (s : Hook) :
  is_OPEN (current_readyState s) = false →
  (length (messageQueue s) ≤ MAX_QUEUE_SIZE)%nat →
  messageQueue (send_or_enqueue payload s) =
    last_n MAX_QUEUE_SIZE (messageQueue s ++ [payload]).
Proof.
  intros Hclosed Hlen. unfold send_or_enqueue. rewrite Hclosed.
  by apply enqueue_last_n.
Qed.

Section Queue.
Context {host : Runtime}.

Lemma local_step_closed (e : Event) (s : Hook) :
  is_local e = true →
  is_OPEN (current_readyState s) = false →
  (length (messageQueue s) ≤ MAX_QUEUE_SIZE)%nat →
  messageQueue (handle e s) =
    last_n MAX_QUEUE_SIZE (messageQueue s ++ pushed e s) ∧
  sockets (handle e s) = sockets s ∧
  current_readyState (handle e s) = current_readyState s.
Proof.
  intros Hlocal Hclosed Hlen.
  destruct e as [| |ws|data|ws|ws|t|[note|id]|k]; try done; simpl.
  - by rewrite app_nil_r, last_n_short.
  - unfold deleteNote.
    destruct (send_or_enqueue_closed (JSON_stringify (OutDelete id))
                (setNotes (delete id (notes s)) s) Hclosed) as (_ & Hs & Hrs).
    rewrite Hrs, Hs. split; [|done].
    by rewrite send_or_enqueue_closed_last_n.
  - unfold updater_runs. destruct (updaters s !! k) as [payload|].
    + destruct (send_or_enqueue_closed payload s Hclosed) as (_ & Hs & Hrs).
      rewrite Hrs, Hs. split; [|done].
      by rewrite send_or_enqueue_closed_last_n.
    + by rewrite app_nil_r, last_n_short.
Qed.

Lemma local_run_closed (events : list Event) :
  ∀ s : Hook,
  Forall (λ e, is_local e = true) events →
  is_OPEN (current_readyState s) = false →
  (length (messageQueue s) ≤ MAX_QUEUE_SIZE)%nat →
  messageQueue (handle_all events s) =
    last_n MAX_QUEUE_SIZE (messageQueue s ++ pushed_all events s) ∧
  sockets (handle_all events s) = sockets s ∧
  current_readyState (handle_all events s) = current_readyState s.
Proof.
  induction events as [|e events IH]; intros s Hlocal Hclosed Hlen; simpl.
  - by rewrite app_nil_r, last_n_short.
  - inversion Hlocal as [|? ? He Hrest]; subst.
    destruct (local_step_closed e s He Hclosed Hlen) as (Hq & Hs & Hrs).
    destruct (IH (handle e s) Hrest) as (Hq' & Hs' & Hrs').
    + by rewrite Hrs.
    + rewrite Hq. apply last_n_length.
    + split; [|split; congruence].
      rewrite Hq', Hq, last_n_app. by rewrite <- (assoc_L (++)).
Qed.

Lemma payloads_ext (intents : list Intent) :
  ∀ s t : Hook,
  notes s = notes t → notes_proto s = notes_proto t →
  payloads intents s = payloads intents t.
Proof.
  induction intents as [|i intents IH]; intros s t Hn Hp; [done|].
  simpl. f_equal.
  - destruct i as [note|id]; simpl; [|done]. by rewrite Hn, Hp.
  - apply IH.
    + destruct i as [note|id]; unfold perform.
      * rewrite !notes_upsertNote. by rewrite Hn, Hp.
      * rewrite !notes_deleteNote. by rewrite Hn.
    + destruct i as [note|id]; unfold perform; [done|].
      unfold deleteNote. by rewrite !notes_proto_send_or_enqueue.
Qed.

Lemma pushed_prompt (intents : list Intent) :
  ∀ s : Hook,
  pushed_all (prompt (length (updaters s)) intents) s = payloads intents s.
Proof.
  induction intents as [|i intents IH]; intros s; [done|].
  destruct i as [note|id]; simpl.
  - unfold updater_runs. simpl. rewrite list_lookup_middle by done. simpl.
    set (payload := JSON_stringify _).
    set (s1 := send_or_enqueue payload _).
    assert (Hlog : updaters s1 = updaters s ++ [payload])
      by (subst s1; by rewrite updaters_send_or_enqueue).
    f_equal. replace (S (length (updaters s))) with (length (updaters s1))
      by (rewrite Hlog, length_app; simpl; lia).
    rewrite IH. apply payloads_ext.
    + subst s1. by rewrite notes_send_or_enqueue.
    + subst s1. by rewrite notes_proto_send_or_enqueue.
  - f_equal.
    replace (length (updaters s)) with (length (updaters (deleteNote id s)))
      by (unfold deleteNote; by rewrite updaters_send_or_enqueue).
    apply IH.
Qed.

(** X24.  While no session is open, any run of
    [upsertNote] and [deleteNote] calls, React running the updaters of the
    upserts whenever and however often it does, keeps the queue within 100
    entries, and the queue is the 100 most recent of the frames pushed, in
    the order of the pushes: [deleteNote] pushes during the call,
    [upsertNote] when React runs its updater.  When each updater runs once,
    before the next call, the queue is the 100 most recent intents in call
    order.  A push on a full queue drops the oldest entry and appends the
    new frame. *)
Theorem queue_bounded (events : list Event) (intents : list Intent) (s : Hook) :
  Forall (λ e, is_local e = true) events →
  is_OPEN (current_readyState s) = false →
  (length (messageQueue s) ≤ 100)%nat →
  let s' := handle_all events s in
  (length (messageQueue s') ≤ 100)%nat ∧
  messageQueue s' = last_n 100 (messageQueue s ++ pushed_all events s) ∧
  (events = prompt (length (updaters s)) intents →
   messageQueue s' = last_n 100 (messageQueue s ++ payloads intents s)) ∧
  ∀ i, length (messageQueue s') = 100%nat →
       messageQueue (handle_all (prompt (length (updaters s')) [i]) s') =
         tail (messageQueue s') ++ [payload_of i s'].
Proof.
  intros Hlocal Hclosed Hlen s'.
  destruct (local_run_closed events s Hlocal Hclosed Hlen) as (Hq & _ & Hrs).
  fold s' in Hq, Hrs. split; [|split; [done|split]].
  - rewrite Hq. apply last_n_length.
  - intros ->. rewrite Hq. by rewrite pushed_prompt.
  - intros i Hfull.
    assert (Hclosed' : is_OPEN (current_readyState s') = false) by by rewrite Hrs.
    destruct i as [note|id]; simpl.
    + unfold updater_runs. simpl. rewrite list_lookup_middle by done.
      destruct (send_or_enqueue_closed
                  (JSON_stringify (OutUpdate (Note.with_zIndex
                     (upsert_finalZIndex (Note.zIndex note)
                        (known_zIndex (notes s') (notes_proto s') (Note.id note)))
                     note)))
                  (upsertNote note s')) as (Hq' & _ & _); [done|].
      unfold upsertNote in Hq'. simpl in Hq'.
      rewrite Hfull in Hq'. simpl in Hq'. exact Hq'.
    + unfold deleteNote.
      destruct (send_or_enqueue_closed (JSON_stringify (OutDelete id))
                  (setNotes (delete id (notes s')) s') Hclosed') as (Hq' & _ & _).
      simpl in Hq'. rewrite Hfull in Hq'. exact Hq'.
Qed.

End Queue.

Lemma queue_bounded_witness :
  let calls := [Upsert (note_of "a" (Some 1)); Remove "a"] in
  let s' := @handle_all test_host (prompt 0 calls) mounted in
  (length (messageQueue s') ≤ 100)%nat ∧
  messageQueue s' =
    last_n 100 (messageQueue mounted ++
                @pushed_all test_host (prompt 0 calls) mounted) ∧
  (prompt 0 calls = prompt (length (updaters mounted)) calls →
   messageQueue s' =
     last_n 100 (messageQueue mounted ++ @payloads test_host calls mounted)) ∧
  ∀ i, length (messageQueue s') = 100%nat →
       messageQueue (@handle_all test_host (prompt (length (updaters s')) [i]) s') =
         tail (messageQueue s') ++ [@payload_of test_host i s'].
Proof.
  apply (@queue_bounded test_host);
    [repeat constructor | reflexivity | vm_compute; lia].
Defined.

(** C6, at the input where the code departs from it.  With no session
    open the calls are upsert a, upsert b, delete c.  React runs the updater
    of the first upsert at its call, the queue of updates being idle, and
    that of the second at the next render, after the delete call: the queue
    then holds update a, delete c, update b, not the frames in call order.
    [deleteNote] pushes in the call, [upsertNote] in its updater. *)
Lemma upsert_queued_after_later_delete :
  let a := note_of "a" (Some 1) in
  let b := note_of "b" (Some 2) in
  messageQueue
    (@handle_all test_host
       [Intended (Upsert a); UpdaterRan 0;
        Intended (Upsert b); Intended (Remove "c"); UpdaterRan 1] mounted)
    = ["update a"; "delete c"; "update b"] ∧
  @payloads test_host [Upsert a; Upsert b; Remove "c"] mounted
    = ["update a"; "update b"; "delete c"].
Proof. split; reflexivity. Qed.

(** ** Opening a session *)

Lemma flush_sends (ws : nat) (queue : list string) :
  ∀ (s : Hook) (frames : list string),
  sockets s !! ws = Some (Build_WebSocket OPEN frames) →
  Forall (λ msg, truthy msg = true) queue →
  messageQueue s = queue →
  flush ws queue s =
    set_messageQueue []
      (set_sockets (<[ws := Build_WebSocket OPEN (frames ++ queue)]> (sockets s)) s).
Proof.
  induction queue as [|msg rest IH]; intros s frames Hws Htruthy Hqueue.
  - rewrite app_nil_r, list_insert_id by done.
    destruct s; simpl in *; by subst.
  - inversion Htruthy as [|? ? Hmsg Hrest]; subst. simpl. rewrite Hmsg.
    unfold WebSocket_send. simpl. rewrite Hws. simpl.
    rewrite (IH _ (frames ++ [msg])); simpl; try done.
    + rewrite list_insert_insert_eq, <- (assoc_L (++)). by destruct s.
    + apply list_lookup_insert_eq. by apply lookup_lt_Some in Hws.
Qed.

(** C7.  When the open event reaches a mounted hook, the status becomes
    open, the attempt counter returns to 0, and the socket is sent every
    entry of the queue once, oldest first, after which the queue is empty.
    (Queue entries are serialised objects, none of them the empty string;
    see [queue_entries_truthy].) *)
Theorem open_flushes_queue (ws : nat) (s : Hook) (sock : WebSocket) :
  isMountedRef s = true →
  sockets s !! ws = Some sock →
  Forall (λ msg, truthy msg = true) (messageQueue s) →
  let s' := open_event ws s in
  status s' = open ∧ reconnectAttempts s' = 0 ∧ messageQueue s' = [] ∧
  sockets s' =
    <[ws := Build_WebSocket OPEN (sent sock ++ messageQueue s)]> (sockets s).
Proof.
  intros Hmounted Hws Htruthy. unfold open_event, onopen, set_readyState.
  rewrite Hws. simpl. rewrite Hmounted. simpl.
  rewrite (flush_sends ws _ _ (sent sock)); simpl; try done.
  - by rewrite list_insert_insert_eq.
  - apply list_lookup_insert_eq. by apply lookup_lt_Some in Hws.
Qed.

Lemma open_flushes_queue_witness :
  let s := @handle_all test_host
             (prompt 0 [Upsert (note_of "a" (Some 1)); Remove "b"]) mounted in
  let s' := open_event 0%nat s in
  status s' = open ∧ reconnectAttempts s' = 0 ∧ messageQueue s' = [] ∧
  sockets s' = [Build_WebSocket OPEN ["update a"; "delete b"]].
Proof.
  apply (open_flushes_queue 0%nat
           (@handle_all test_host
              (prompt 0 [Upsert (note_of "a" (Some 1)); Remove "b"]) mounted)
           (Build_WebSocket CONNECTING [])); [reflexivity | reflexivity |].
  vm_compute. repeat constructor.
Defined.

(** *** The queue never holds an empty string *)

Lemma messageQueue_WebSocket_send (ws : nat) (msg : string) (s : Hook) :
  messageQueue (WebSocket_send ws msg s) = messageQueue s.
Proof. unfold WebSocket_send. split_cases. Qed.

Lemma messageQueue_WebSocket_close (ws : nat) (s : Hook) :
  messageQueue (WebSocket_close ws s) = messageQueue s.
Proof. unfold WebSocket_close, set_readyState. split_cases. Qed.

Lemma messageQueue_set_readyState (ws : nat) (rs : ReadyState) (s : Hook) :
  messageQueue (set_readyState ws rs s) = messageQueue s.
Proof. unfold set_readyState. split_cases. Qed.

Lemma messageQueue_flush (ws : nat) (queue : list string) :
  ∀ s, messageQueue s = queue → messageQueue (flush ws queue s) = [].
Proof.
  induction queue as [|msg rest IH]; intros s Hqueue; [done|].
  simpl. apply IH. destruct (truthy msg); [|done].
  by rewrite messageQueue_WebSocket_send.
Qed.

Section QueueEntries.
Context {host : Runtime}.

Lemma send_or_enqueue_truthy (payload : string) (s : Hook) :
  truthy payload = true →
  Forall (λ msg, truthy msg = true) (messageQueue s) →
  Forall (λ msg, truthy msg = true) (messageQueue (send_or_enqueue payload s)).
Proof.
  intros Hp Hq. unfold send_or_enqueue. destruct (is_OPEN _).
  - destruct (socketRef s); [|done]. by rewrite messageQueue_WebSocket_send.
  - rewrite enqueue_queue. apply Forall_app. split; [|by constructor].
    case_bool_decide; [|done]. destruct (messageQueue s); [done|].
    by inversion Hq.
Qed.

Lemma queue_entries_truthy_step (e : Event) (s : Hook) :
  (∀ o, truthy (JSON_stringify o) = true) →
  Forall (λ msg, truthy msg = true) (messageQueue s) ∧
  Forall (λ msg, truthy msg = true) (updaters s) →
  Forall (λ msg, truthy msg = true) (messageQueue (handle e s)) ∧
  Forall (λ msg, truthy msg = true) (updaters (handle e s)).
Proof.
  intros Hjson [Hq Hp].
  destruct (handle_frame e s) as (_ & _ & Hlog & Hqueue).
  rewrite Hlog, Hqueue. clear Hlog Hqueue.
  destruct e as [| |ws|data|ws|ws|t|[note|id]|k]; try done.
  - split; [|done]. unfold open_event, onopen.
    destruct (isMountedRef (set_readyState ws OPEN s)); simpl.
    + by rewrite messageQueue_flush.
    + by rewrite messageQueue_WebSocket_close, messageQueue_set_readyState.
  - split; [done|]. simpl. apply Forall_app. split; [done|]. by constructor.
  - split; [|done]. unfold deleteNote. by apply send_or_enqueue_truthy.
  - split; [|done]. unfold updater_runs.
    destruct (updaters s !! k) as [payload|] eqn:Hk; [|done].
    apply send_or_enqueue_truthy; [|done].
    by apply (Forall_lookup_1 _ _ _ _ Hp Hk).
Qed.

Lemma queue_entries_truthy_run (events : list Event) :
  (∀ o, truthy (JSON_stringify o) = true) →
  ∀ s,
  Forall (λ msg, truthy msg = true) (messageQueue s) ∧
  Forall (λ msg, truthy msg = true) (updaters s) →
  Forall (λ msg, truthy msg = true) (messageQueue (handle_all events s)) ∧
  Forall (λ msg, truthy msg = true) (updaters (handle_all events s)).
Proof.
  intros Hjson.
  induction events as [|e events IH]; intros s Hq; [done|].
  simpl. by apply IH, queue_entries_truthy_step.
Qed.

(** Whatever happens to a hook that starts with an empty queue, the queue
    holds no empty string, provided [JSON.stringify] returns none (it
    returns text that starts with a brace for the objects at hand). *)
Lemma queue_entries_truthy (events : list Event) :
  (∀ o, truthy (JSON_stringify o) = true) →
  Forall (λ msg, truthy msg = true) (messageQueue (handle_all events initial)).
Proof. intros Hjson. by apply (queue_entries_truthy_run events Hjson initial). Qed.

End QueueEntries.

(** ** Deleting *)

Lemma send_or_enqueue_setNotes (payload : string) (m : gmap string Note.t)
    (s : Hook) :
  send_or_enqueue payload (setNotes m s) = setNotes m (send_or_enqueue payload s).
Proof.
  unfold send_or_enqueue.
  change (current_readyState (setNotes m s)) with (current_readyState s).
  destruct (is_OPEN (current_readyState s)).
  - change (socketRef (setNotes m s)) with (socketRef s).
    destruct (socketRef s) as [ws|]; [|done]. unfold WebSocket_send. simpl.
    destruct (sockets s !! ws) as [sock|]; [|done]. by destruct (readyState sock).
  - unfold enqueue. simpl. by case_bool_decide.
Qed.

Lemma is_OPEN_current (s : Hook) :
  is_OPEN (current_readyState s) = true →
  ∃ ws sock, socketRef s = Some ws ∧ sockets s !! ws = Some sock ∧
             readyState sock = OPEN.
Proof.
  unfold current_readyState. destruct (socketRef s) as [ws|]; [|done]. simpl.
  destruct (sockets s !! ws) as [sock|] eqn:Hws; [|done]. simpl.
  destruct (readyState sock) eqn:Hrs; try done. intros _. by exists ws, sock.
Qed.

Section Delete.
Context {host : Runtime}.

(** C10.  [deleteNote] for an id that the collection lacks leaves the
    collection as it is and still transmits the delete frame for that id:
    on the open socket if there is one, through the queue otherwise.  What
    is transmitted is the same whatever the collection holds. *)
Theorem deleteNote_absent (id : string) (s : Hook) :
  notes s !! id = None →
  let payload := JSON_stringify (OutDelete id) in
  let s' := deleteNote id s in
  notes s' = notes s ∧
  (is_OPEN (current_readyState s) = true →
   ∃ ws sock, socketRef s = Some ws ∧ sockets s !! ws = Some sock ∧
     sockets s' = <[ws := Build_WebSocket OPEN (sent sock ++ [payload])]> (sockets s) ∧
     messageQueue s' = messageQueue s) ∧
  (is_OPEN (current_readyState s) = false →
   sockets s' = sockets s ∧
   messageQueue s' =
     (if bool_decide (MAX_QUEUE_SIZE ≤ length (messageQueue s))%nat
      then tail (messageQueue s) else messageQueue s) ++ [payload]) ∧
  (∀ m, sockets (deleteNote id (setNotes m s)) = sockets s' ∧
        messageQueue (deleteNote id (setNotes m s)) = messageQueue s').
Proof.
  intros Habsent payload s'. subst s'. split; [|split; [|split]].
  - rewrite notes_deleteNote. by apply delete_id.
  - intros Hopen. destruct (is_OPEN_current s Hopen) as (ws & sock & Href & Hws & Hrs).
    exists ws, sock. split; [done|]. split; [done|].
    unfold deleteNote. rewrite send_or_enqueue_setNotes. simpl.
    unfold send_or_enqueue, WebSocket_send. rewrite Hopen, Href, Hws, Hrs. done.
  - intros Hclosed. unfold deleteNote. rewrite send_or_enqueue_setNotes. simpl.
    unfold send_or_enqueue. rewrite Hclosed. unfold enqueue.
    by case_bool_decide.
  - intros m. unfold deleteNote. by rewrite !send_or_enqueue_setNotes.
Qed.

End Delete.

Lemma deleteNote_absent_witness :
  let s' := @deleteNote test_host "z" board in
  notes s' = notes board ∧
  (is_OPEN (current_readyState board) = false →
   sockets s' = sockets board ∧ messageQueue s' = ["delete z"]).
Proof.
  destruct (@deleteNote_absent test_host "z" board eq_refl) as (Hnotes & _ & Hq & _).
  split; [exact Hnotes | exact Hq].
Defined.

(** ** Connecting *)

Section Connect.
Context {host : Runtime}.

(** C4, as the code has it.  [connect] does nothing while the current
    session is open: no session is made and no state changes, so two calls
    are as one.  While the current session is still connecting, [connect]
    is not guarded: it constructs another socket and makes it the current
    one; the status stays connecting and the attempt counter, the queue and
    the collection are as before. *)
Theorem connect_guarded_when_open :
  (∀ s, is_OPEN (current_readyState s) = true →
        connect s = s ∧ connect (connect s) = connect s) ∧
  (∀ s, isMountedRef s = true →
        current_readyState s = Some CONNECTING →
        url_ok = true →
        sockets (connect s) = sockets s ++ [Build_WebSocket CONNECTING []] ∧
        socketRef (connect s) = Some (length (sockets s)) ∧
        status (connect s) = connecting ∧
        reconnectAttempts (connect s) = reconnectAttempts s ∧
        messageQueue (connect s) = messageQueue s ∧
        notes (connect s) = notes s).
Proof.
  split.
  - intros s Hopen.
    assert (Hnoop : connect s = s).
    { unfold connect. rewrite Hopen. by rewrite orb_true_r. }
    by rewrite !Hnoop.
  - intros s Hmounted Hconnecting Hurl. unfold connect.
    rewrite Hmounted, Hconnecting, Hurl. done.
Qed.

End Connect.

Lemma connect_guarded_when_open_witness :
  sockets (@connect test_host mounted) =
    sockets mounted ++ [Build_WebSocket CONNECTING []] ∧
  socketRef (@connect test_host mounted) = Some (length (sockets mounted)) ∧
  status (@connect test_host mounted) = connecting ∧
  reconnectAttempts (@connect test_host mounted) = reconnectAttempts mounted ∧
  messageQueue (@connect test_host mounted) = messageQueue mounted ∧
  notes (@connect test_host mounted) = notes mounted.
Proof.
  apply (proj2 (@connect_guarded_when_open test_host) mounted); reflexivity.
Defined.

(** C4 as the spec words it fails: the hook has just mounted, its session is
    connecting, and a second [connect] makes a second socket and replaces
    the current one. *)
Lemma connect_while_connecting :
  status mounted = connecting ∧
  current_readyState mounted = Some CONNECTING ∧
  length (sockets mounted) = 1%nat ∧
  length (sockets (@connect test_host mounted)) = 2%nat ∧
  socketRef (@connect test_host mounted) ≠ socketRef mounted.
Proof. repeat split; try reflexivity. discriminate. Qed.

(** ** Reconnecting *)

Lemma backoff_values :
  backoff <$> seq 0 10 =
    [1000; 2000; 4000; 8000; 16000; 30000; 30000; 30000; 30000; 30000].
Proof. reflexivity. Qed.

Lemma backoff_capped (attempts : nat) : (5 ≤ attempts)%nat → backoff attempts = 30000.
Proof.
  intros Hle. unfold backoff. apply Z.min_r.
  replace (Z.of_nat attempts) with (5 + Z.of_nat (attempts - 5)) by lia.
  rewrite Z.pow_add_r by lia.
  assert (1 ≤ 2 ^ Z.of_nat (attempts - 5)) by (apply Z.pow_le_mono_r with (b := 0); lia).
  change (2 ^ 5) with 32. nia.
Qed.

Lemma reconnectAttempts_set_readyState (ws : nat) (rs : ReadyState) (s : Hook) :
  reconnectAttempts (set_readyState ws rs s) = reconnectAttempts s ∧
  isMountedRef (set_readyState ws rs s) = isMountedRef s ∧
  timers (set_readyState ws rs s) = timers s ∧
  length (sockets (set_readyState ws rs s)) = length (sockets s).
Proof.
  unfold set_readyState. destruct (sockets s !! ws); [|done]. simpl.
  by rewrite length_insert.
Qed.

(** What [onclose] does on a mounted hook below the retry ceiling. *)
Lemma onclose_schedules (s : Hook) :
  isMountedRef s = true → reconnectAttempts s < MAX_RECONNECT_ATTEMPTS →
  timers (onclose s) =
    timers s ++ [Some (Z.min (INITIAL_RECONNECT_DELAY * 2 ^ reconnectAttempts s) 30000)] ∧
  reconnectTimeoutRef (onclose s) = Some (length (timers s)) ∧
  socketRef (onclose s) = None ∧ status (onclose s) = closed ∧
  isMountedRef (onclose s) = true ∧
  reconnectAttempts (onclose s) = reconnectAttempts s ∧
  sockets (onclose s) = sockets s.
Proof.
  intros Hmounted Hbelow. unfold onclose. simpl. rewrite Hmounted. simpl.
  by rewrite bool_decide_eq_true_2.
Qed.

(** What [onclose] does on a mounted hook at the retry ceiling. *)
Lemma onclose_gives_up (s : Hook) :
  MAX_RECONNECT_ATTEMPTS ≤ reconnectAttempts s →
  timers (onclose s) = timers s ∧
  reconnectAttempts (onclose s) = reconnectAttempts s.
Proof.
  intros Hceiling. unfold onclose. simpl. destruct (isMountedRef s); simpl; [|done].
  by rewrite bool_decide_eq_false_2 by lia.
Qed.

Lemma reconnectAttempts_onclose (s : Hook) :
  reconnectAttempts (onclose s) = reconnectAttempts s.
Proof.
  unfold onclose. simpl. destruct (isMountedRef s); simpl; [|done].
  by case_bool_decide.
Qed.

Section Reconnect.
Context {host : Runtime}.

Lemma reconnectAttempts_timer_fires (t : nat) (s : Hook) :
  reconnectAttempts (timer_fires t s) =
    match timers s !! t with
    | Some (Some _) =>
        if isMountedRef s then reconnectAttempts s + 1 else reconnectAttempts s
    | _ => reconnectAttempts s
    end.
Proof.
  unfold timer_fires, reconnect_callback.
  destruct (timers s !! t) as [[delay|]|]; try done. simpl.
  destruct (isMountedRef s); simpl; [|done]. unfold connect. simpl. split_cases.
Qed.

(** One failed session below the ceiling: the close schedules a retry after
    the backoff delay, and the retry, when it fires, counts one attempt and
    starts a new session. *)
Lemma retry_cycle (s : Hook) (ws : nat) :
  url_ok = true → isMountedRef s = true →
  reconnectAttempts s < MAX_RECONNECT_ATTEMPTS →
  let s1 := close_event ws s in
  let t := length (timers s) in
  new_timer s s1 =
    Some (t, Z.min (INITIAL_RECONNECT_DELAY * 2 ^ reconnectAttempts s) 30000) ∧
  isMountedRef (timer_fires t s1) = true ∧
  socketRef (timer_fires t s1) = Some (length (sockets s)) ∧
  reconnectAttempts (timer_fires t s1) = reconnectAttempts s + 1 ∧
  length (sockets (timer_fires t s1)) = S (length (sockets s)).
Proof.
  intros Hurl Hmounted Hbelow s1 t. subst s1 t. unfold close_event.
  destruct (reconnectAttempts_set_readyState ws CLOSED s) as (Ha & Hm & Ht & Hs).
  destruct (onclose_schedules (set_readyState ws CLOSED s))
    as (Htimers & _ & Href & _ & Hm' & Ha' & Hs'); [congruence | congruence |].
  rewrite Ht, Ha in Htimers.
  assert (Hlookup : timers (onclose (set_readyState ws CLOSED s)) !! length (timers s) =
            Some (Some (Z.min (INITIAL_RECONNECT_DELAY * 2 ^ reconnectAttempts s) 30000))).
  { rewrite Htimers. by rewrite list_lookup_middle. }
  split; [unfold new_timer; by rewrite Hlookup|].
  unfold timer_fires. rewrite Hlookup. unfold reconnect_callback. simpl.
  rewrite Hm'. simpl. unfold connect. simpl.
  rewrite Hm'. unfold current_readyState. simpl. rewrite Href. simpl.
  rewrite Hurl. simpl. rewrite Hs', Ha', Ha, length_app, Hs. simpl.
  repeat split; try done. lia.
Qed.

Lemma failures_from (n : nat) :
  ∀ (k : nat) (s : Hook),
  url_ok = true → isMountedRef s = true → is_Some (socketRef s) →
  reconnectAttempts s = Z.of_nat k → (k ≤ 10)%nat →
  (failures n s).1 = backoff <$> seq k (n `min` (10 - k)) ∧
  reconnectAttempts (failures n s).2 = Z.of_nat (k + n `min` (10 - k)) ∧
  length (sockets (failures n s).2) = (length (sockets s) + n `min` (10 - k))%nat.
Proof.
  induction n as [|n IH]; intros k s Hurl Hmounted [ws Href] Hk Hle.
  - simpl. rewrite !Nat.add_0_r. done.
  - simpl. rewrite Href. destruct (decide (k = 10%nat)) as [->|Hne].
    + destruct (reconnectAttempts_set_readyState ws CLOSED s) as (Ha & _ & Ht & Hs).
      destruct (onclose_gives_up (set_readyState ws CLOSED s)) as [Htimers Ha'].
      { rewrite Ha, Hk. unfold MAX_RECONNECT_ATTEMPTS. lia. }
      unfold new_timer, close_event. rewrite Htimers, Ht.
      rewrite (lookup_ge_None_2 (timers s)) by lia. simpl.
      rewrite Ha', Ha, Hk, !Nat.add_0_r. repeat split; try done.
      unfold onclose. simpl. split_cases.
    + destruct (retry_cycle s ws Hurl Hmounted) as (Hnew & Hm & Hr & Ha & Hs).
      { rewrite Hk. unfold MAX_RECONNECT_ATTEMPTS. lia. }
      rewrite Hnew.
      destruct (IH (S k) (timer_fires (length (timers s)) (close_event ws s)))
        as (Hdelays & Hcount & Hsockets); try done; [rewrite Ha, Hk; lia | lia |].
      destruct (failures n (timer_fires (length (timers s)) (close_event ws s)))
        as [delays s2]. simpl in *.
      replace (10 - k)%nat with (S (10 - S k)) by lia. simpl.
      rewrite Hdelays, Hcount, Hsockets, Hs, Hk. repeat split; try done.
      * f_equal. lia.
      * lia.
Qed.

(** C5.  From a counter at 0, consecutive failed sessions schedule retries
    after min(1000 * 2^attempts, 30000) ms: 1000, 2000, 4000, 8000, 16000,
    then 30000 for every later one.  Ten retries fire, each starting one
    session, and the counter then stands at 10; the close that follows
    schedules nothing, so there is no eleventh.  A close never changes the
    counter; a retry timer that fires on a mounted hook adds one to it. *)
Theorem reconnect_backoff (s : Hook) :
  url_ok = true → isMountedRef s = true → is_Some (socketRef s) →
  reconnectAttempts s = 0 →
  (∀ n, (failures n s).1 = backoff <$> seq 0 (n `min` 10)) ∧
  (∀ n, (10 ≤ n)%nat →
     (failures n s).1 =
       [1000; 2000; 4000; 8000; 16000; 30000; 30000; 30000; 30000; 30000] ∧
     reconnectAttempts (failures n s).2 = 10 ∧
     length (sockets (failures n s).2) = (length (sockets s) + 10)%nat) ∧
  (∀ attempts, (5 ≤ attempts)%nat → backoff attempts = 30000) ∧
  (∀ s0 ws, reconnectAttempts (close_event ws s0) = reconnectAttempts s0) ∧
  (∀ s0 t, reconnectAttempts (timer_fires t s0) =
     match timers s0 !! t with
     | Some (Some _) =>
         if isMountedRef s0 then reconnectAttempts s0 + 1 else reconnectAttempts s0
     | _ => reconnectAttempts s0
     end) ∧
  (∀ s0 ws, MAX_RECONNECT_ATTEMPTS ≤ reconnectAttempts s0 →
     timers (close_event ws s0) = timers s0).
Proof.
  intros Hurl Hmounted Href Hzero.
  assert (Hrun : ∀ n,
    (failures n s).1 = backoff <$> seq 0 (n `min` 10) ∧
    reconnectAttempts (failures n s).2 = Z.of_nat (n `min` 10) ∧
    length (sockets (failures n s).2) = (length (sockets s) + n `min` 10)%nat).
  { intros n. apply (failures_from n 0%nat s); try done. lia. }
  split; [intros n; apply Hrun|]. split; [|split; [|split; [|split]]].
  - intros n Hn. destruct (Hrun n) as (Hd & Ha & Hs).
    replace (n `min` 10)%nat with 10%nat in * by lia.
    by rewrite Hd, Ha, Hs.
  - apply backoff_capped.
  - intros s0 ws. unfold close_event. rewrite reconnectAttempts_onclose.
    apply reconnectAttempts_set_readyState.
  - intros s0 t. apply reconnectAttempts_timer_fires.
  - intros s0 ws Hceiling. unfold close_event.
    destruct (reconnectAttempts_set_readyState ws CLOSED s0) as (Ha & _ & Ht & _).
    destruct (onclose_gives_up (set_readyState ws CLOSED s0)) as [Htimers _];
      congruence.
Qed.

End Reconnect.

Lemma reconnect_backoff_witness :
  (@failures test_host 12 mounted).1 =
    [1000; 2000; 4000; 8000; 16000; 30000; 30000; 30000; 30000; 30000] ∧
  reconnectAttempts (@failures test_host 12 mounted).2 = 10 ∧
  length (sockets (@failures test_host 12 mounted).2) =
    (length (sockets mounted) + 10)%nat.
Proof.
  apply (proj1 (proj2 (@reconnect_backoff test_host mounted
                         eq_refl eq_refl (ex_intro _ 0%nat eq_refl) eq_refl))).
  lia.
Defined.

(** ** Bring to front *)

Lemma foldl_max_bounds (l : list Note.t) :
  ∀ acc : Z,
  let result := foldl (λ max n, Z.max max (default 0 (Note.zIndex n))) acc l in
  acc ≤ result ∧ ∀ n, n ∈ l → default 0 (Note.zIndex n) ≤ result.
Proof.
  induction l as [|n0 l IH]; intros acc; simpl.
  - split; [lia | intros n Hn; by apply elem_of_nil in Hn].
  - destruct (IH (Z.max acc (default 0 (Note.zIndex n0)))) as [Hacc Hall].
    split; [lia|]. intros n Hn. apply elem_of_cons in Hn as [->|Hn]; [lia|].
    by apply Hall.
Qed.

Lemma maxZIndex_nonneg (m : gmap string Note.t) : 0 ≤ maxZIndex m.
Proof. apply (foldl_max_bounds (map_to_list m).*2 0). Qed.

Lemma maxZIndex_ge (m : gmap string Note.t) (k : string) (n : Note.t) :
  m !! k = Some n → default 0 (Note.zIndex n) ≤ maxZIndex m.
Proof.
  intros Hk. apply (foldl_max_bounds (map_to_list m).*2 0).
  apply list_elem_of_fmap. exists (k, n). split; [done|].
  by apply elem_of_map_to_list.
Qed.

(** *** Sums of doubles *)

Lemma double_round_small (z : Z) : Z.abs z < 2 ^ 53 → double_round z = z.
Proof. intros Hz. unfold double_round. by rewrite bool_decide_eq_true_2. Qed.

Lemma double_round_large (z : Z) :
  2 ^ 53 ≤ z →
  ∃ ulp q r q',
    ulp = 2 ^ (Z.log2 z - 52) ∧ 2 ≤ ulp ∧ z = q * ulp + r ∧ 0 ≤ r < ulp ∧
    1 ≤ q ∧ q ≤ q' ≤ q + 1 ∧
    (2 * r < ulp → q' = q) ∧ (ulp < 2 * r → q' = q + 1) ∧
    (r = 0 → q' = q) ∧
    double_round z = q' * ulp.
Proof.
  intros Hz.
  assert (H53 : 0 < 2 ^ 53) by done.
  assert (Hlog : 53 ≤ Z.log2 z).
  { change 53 with (Z.log2 (2 ^ 53)). apply Z.log2_le_mono. lia. }
  set (ulp := 2 ^ (Z.log2 z - 52)).
  assert (Hulp : 2 ≤ ulp).
  { change 2 with (2 ^ 1). apply Z.pow_le_mono_r; lia. }
  pose proof (Z.div_mod z ulp ltac:(lia)) as Hdm.
  pose proof (Z.mod_pos_bound z ulp ltac:(lia)) as Hr.
  assert (Hq : 1 ≤ z / ulp).
  { apply Z.div_le_lower_bound; [lia|].
    destruct (Z.log2_spec z ltac:(lia)) as [Hlo _].
    rewrite Z.mul_1_r. etrans; [|exact Hlo].
    apply Z.pow_le_mono_r; lia. }
  unfold double_round. rewrite Z.abs_eq by lia.
  rewrite bool_decide_eq_false_2 by lia. fold ulp.
  rewrite Z.sgn_pos by lia. rewrite Z.mul_1_l.
  eexists ulp, (z / ulp), (z mod ulp), _.
  split; [done|]. split; [done|]. split; [lia|]. split; [done|]. split; [done|].
  split; [|split; [|split; [|split; [|reflexivity]]]].
  - repeat case_bool_decide; try lia. destruct (Z.even _); lia.
  - intros H. by rewrite bool_decide_eq_true_2.
  - intros H. rewrite bool_decide_eq_false_2 by lia. by rewrite bool_decide_eq_true_2.
  - intros H. rewrite bool_decide_eq_true_2; [done | lia].
Qed.

Lemma number_add_one (m : Z) : 0 ≤ m → m < 2 ^ 53 → number_add m 1 = m + 1.
Proof.
  intros H0 Hm. unfold number_add.
  destruct (decide (m + 1 = 2 ^ 53)) as [->|Hne]; [done|].
  apply double_round_small. lia.
Qed.

Lemma number_add_one_pos (m : Z) : 0 ≤ m → 0 < number_add m 1.
Proof.
  intros H0. unfold number_add.
  destruct (decide (m + 1 < 2 ^ 53)) as [Hlt|Hge].
  - rewrite double_round_small; lia.
  - destruct (double_round_large (m + 1) ltac:(lia))
      as (ulp & q & r & q' & _ & Hulp & _ & _ & Hq & Hq' & _ & _ & _ & ->).
    nia.
Qed.

Lemma is_double_multiple (m : Z) :
  2 ^ 53 ≤ m → is_double m = true → m mod 2 ^ (Z.log2 m - 52) = 0.
Proof.
  intros Hm Hd. apply andb_true_iff in Hd as [Hd _].
  apply bool_decide_eq_true_1 in Hd.
  destruct (double_round_large m Hm)
    as (ulp & q & r & q' & -> & Hulp & Hz & Hr & Hq & Hq' & _ & _ & _ & Hround).
  rewrite Hround in Hd.
  assert (r = 0) as ->.
  { destruct (decide (q' = q)) as [->|Hne]; [lia|].
    assert (q' = q + 1) as -> by lia. lia. }
  apply Z.mod_divide; [lia|]. exists q. lia.
Qed.

Lemma number_add_one_ge (m : Z) :
  0 ≤ m → is_double m = true → m ≤ number_add m 1.
Proof.
  intros H0 Hd.
  destruct (decide (m < 2 ^ 53)) as [Hlt|Hge]; [rewrite number_add_one; lia|].
  pose proof (is_double_multiple m ltac:(lia) Hd) as Hmod.
  set (e := Z.log2 m - 52) in *.
  assert (Hlog : 53 ≤ Z.log2 m).
  { change 53 with (Z.log2 (2 ^ 53)). apply Z.log2_le_mono. lia. }
  assert (Hulp : 2 ≤ 2 ^ e).
  { change 2 with (2 ^ 1) at 1. apply Z.pow_le_mono_r; lia. }
  destruct (Z.log2_spec m ltac:(lia)) as [Hlo Hhi].
  assert (Hsame : Z.log2 (m + 1) = Z.log2 m).
  { apply Z.log2_unique; [lia|]. split; [lia|].
    assert (Htop : (2 ^ Z.succ (Z.log2 m)) mod 2 ^ e = 0).
    { replace (Z.succ (Z.log2 m)) with (53 + e) by lia.
      rewrite Z.pow_add_r by lia. apply Z.mod_mul. lia. }
    destruct (decide (m + 1 = 2 ^ Z.succ (Z.log2 m))) as [Heq|Hne]; [|lia].
    exfalso. rewrite <- Heq in Htop.
    rewrite <- Z.add_mod_idemp_l, Hmod in Htop by lia.
    rewrite Z.mod_small in Htop; lia. }
  unfold number_add.
  destruct (double_round_large (m + 1) ltac:(lia))
    as (ulp & q & r & q' & Hu & _ & Hz & Hr & Hq & Hq' & Hdown & Hup & _ & ->).
  rewrite Hsame in Hu. fold e in Hu. subst ulp.
  assert (Hr1 : r = 1).
  { assert (Hm1 : (m + 1) mod 2 ^ e = 1).
    { rewrite <- Z.add_mod_idemp_l, Hmod by lia. apply Z.mod_small. lia. }
    rewrite Hz in Hm1. rewrite Z.add_comm, Z.mod_add in Hm1 by lia.
    rewrite Z.mod_small in Hm1; lia. }
  subst r. nia.
Qed.

Section BringToFront.
Context {host : Runtime}.

Lemma handleUpdateNote_spec (max : Z) (s : Hook) (updatedNote stored : Note.t)
    (z : Z) :
  0 ≤ max →
  notes s !! Note.id updatedNote = Some stored →
  Note.zIndex stored = Some z → Note.zIndex updatedNote = Some z →
  let saved :=
    Note.with_zIndex (if bool_decide (z < max) then number_add max 1 else z)
      updatedNote in
  handleUpdateNote max updatedNote s =
    setNotes (<[Note.id updatedNote := saved]> (notes s))
      (set_updaters
         (updaters s ++ [JSON_stringify (OutUpdate saved)]) s).
Proof.
  intros Hmax Hstored Hz Hz'. simpl.
  unfold handleUpdateNote, zIndex_below. rewrite Hz'.
  case_bool_decide as Hlt.
  - pose proof (number_add_one_pos max Hmax) as Hpos.
    unfold upsertNote, upsert_finalZIndex. simpl.
    by rewrite bool_decide_eq_true_2 by lia.
  - unfold upsertNote, upsert_finalZIndex, known_zIndex.
    rewrite Hz', Hstored, Hz. simpl.
    by case_bool_decide.
Qed.


End BringToFront.



(** * Further properties of the hook *)

(** ** Inbound frames *)

(** X1.  An inbound [delete] removes its id and nothing else; for an id the
    collection lacks the collection is as before, and so is the whole state
    when the collection object has the ordinary prototype; a frame without
    an id changes nothing. *)
Theorem inbound_delete (s : Hook) (id : string) :
  truthy id = true →
  let s' := onmessage (Delete (Some id)) s in
  notes s' !! id = None ∧
  (∀ k, k ≠ id → notes s' !! k = notes s !! k) ∧
  (notes s !! id = None → notes s' = notes s) ∧
  (notes s !! id = None → notes_proto s = None → s' = s) ∧
  onmessage (Delete None) s = s ∧
  onmessage (Delete (Some EmptyString)) s = s.
Proof.
  intros Hid. simpl. rewrite Hid. simpl. repeat split.
  - apply lookup_delete_eq.
  - intros k Hne. by apply lookup_delete_ne.
  - intros Habsent. by rewrite delete_id.
  - intros Habsent Hproto. rewrite delete_id by done. unfold setNotes.
    rewrite <- Hproto. apply setNotes_same.
Qed.

Lemma inbound_delete_witness :
  notes (onmessage (Delete (Some "a")) board) !! "a" = None ∧
  notes (onmessage (Delete (Some "a")) board) !! "b" = notes board !! "b".
Proof.
  destruct (inbound_delete board "a" eq_refl) as (Hgone & Hother & _).
  split; [exact Hgone | by apply Hother].
Defined.

(** X2.  An inbound frame, whatever it holds, changes at most the
    collection: nothing is sent or queued, and the status, the current
    socket, the attempt counter and the timers stay as they are.  A frame
    that does not parse, has no or an unknown type, or lacks its note or a
    non-empty id changes nothing at all. *)
Theorem onmessage_changes_only_notes (data : Frame) (s : Hook) :
  onmessage data s =
    setNotes_object (notes (onmessage data s)) (notes_proto (onmessage data s)) s ∧
  onmessage Unparseable s = s ∧
  onmessage NoDiscriminant s = s ∧
  (∀ type, onmessage (UnknownType type) s = s) ∧
  onmessage (Update None) s = s ∧
  (∀ b, BackendNote.id b = None ∨ BackendNote.id b = Some EmptyString →
        onmessage (Update (Some b)) s = s).
Proof.
  split; [apply onmessage_frame|]. split_and!; try done.
  intros b [Hid | Hid]; simpl; by rewrite Hid.
Qed.

Lemma onmessage_changes_only_notes_witness :
  onmessage (Update (Some (backend_of None (Some 4) None))) board = board.
Proof.
  apply (proj2 (proj2 (proj2 (proj2 (proj2
           (onmessage_changes_only_notes Unparseable board)))))).
  by left.
Defined.

(** ** What the collection always satisfies *)

Section Collection.
Context {host : Runtime}.

Lemma notes_handle (e : Event) (s : Hook) :
  notes (handle e s) =
    match e with
    | Received data => notes (onmessage data s)
    | Intended i => notes (perform i s)
    | _ => notes s
    end.
Proof. apply handle_frame. Qed.

Lemma well_keyed_step (e : Event) (s : Hook) :
  well_keyed (notes s) → well_keyed (notes (handle e s)).
Proof.
  intros Hs. rewrite notes_handle.
  destruct e as [| |ws|data|ws|ws|t|[note|id]|k]; try done.
  - destruct data as [| |[msg_notes|]|[b|]|[id|]|]; simpl; try done.
    + intros k n Hn. unfold noteMap in Hn.
      apply reduce_init_lookup in Hn as [Hn | (i & b & _ & _ & _ & _ & ->)];
        [by destruct (lookup_empty_Some k n) | by split].
    + destruct (BackendNote.id b) as [id|]; [|done].
      destruct (truthy id); [|done]. simpl. unfold update_updater.
      intros k n Hn. apply lookup_insert_Some in Hn as [[<- <-] | [_ Hn]];
        [by split | by apply Hs].
    + destruct (truthy id); [|done]. simpl.
      intros k n Hn. apply lookup_delete_Some in Hn as [_ Hn]. by apply Hs.
  - unfold perform. rewrite notes_upsertNote.
    intros k n Hn. apply lookup_insert_Some in Hn as [[<- <-] | [_ Hn]];
      [by split | by apply Hs].
  - unfold perform. rewrite notes_deleteNote.
    intros k n Hn. apply lookup_delete_Some in Hn as [_ Hn]. by apply Hs.
Qed.

(** X3.  Whatever happens to a hook, every note of its collection is stored
    under its own id and has a zIndex. *)
Theorem collection_well_keyed (events : list Event) (k : string) (n : Note.t) :
  notes (handle_all events initial) !! k = Some n →
  Note.id n = k ∧ is_Some (Note.zIndex n).
Proof.
  assert (Hall : ∀ s, well_keyed (notes s) → well_keyed (notes (handle_all events s))).
  { induction events as [|e events IH]; intros s Hs; [done|].
    simpl. by apply IH, well_keyed_step. }
  apply (Hall initial). intros k' n' Hn. by destruct (lookup_empty_Some k' n').
Qed.

End Collection.

Lemma collection_well_keyed_witness :
  Note.id (note_of "a" (Some 3)) = "a" ∧ is_Some (Note.zIndex (note_of "a" (Some 3))).
Proof.
  apply (@collection_well_keyed test_host
           [Mounted;
            Received (Init (Some [Some (backend_of (Some "a") (Some 3) None)]))]).
  reflexivity.
Defined.

Section Positivity.
Context {host : Runtime}.

Lemma all_positive_insert (m : gmap string Note.t) (k : string) (n : Note.t) (z : Z) :
  all_positive m → Note.zIndex n = Some z → 1 ≤ z →
  all_positive (<[k := n]> m).
Proof.
  intros Hm Hz Hpos k' n' Hn.
  apply lookup_insert_Some in Hn as [[_ <-] | [_ Hn]];
    [by exists z | exact (Hm _ _ Hn)].
Qed.

Lemma all_positive_delete (m : gmap string Note.t) (k : string) :
  all_positive m → all_positive (delete k m).
Proof.
  intros Hm k' n' Hn. apply lookup_delete_Some in Hn as [_ Hn].
  exact (Hm _ _ Hn).
Qed.

Lemma known_positive (m : gmap string Note.t) (proto : option Note.t)
    (k : string) (d : Z) :
  all_positive m → proto_positive proto → 1 ≤ d →
  1 ≤ default d (known_zIndex m proto k).
Proof.
  intros Hm Hp Hd. unfold known_zIndex.
  destruct (m !! k) as [n|] eqn:Hk.
  - by destruct (Hm k n Hk) as (z & -> & Hz).
  - case_bool_decide; [|done]. destruct proto as [p|]; [|done]. simpl.
    by destruct (Hp p eq_refl) as (z & -> & Hz).
Qed.

Lemma init_element_positive (msg_notes : list (option BackendNote.t))
    (i : nat) (b : BackendNote.t) :
  forallb provided_positive msg_notes = true →
  msg_notes !! i = Some (Some b) →
  1 ≤ init_zIndex b i.
Proof.
  intros Hall Hi. rewrite forallb_forall in Hall.
  assert (Hb : provided_positive (Some b) = true).
  { apply Hall. apply list_elem_of_In. by apply list_elem_of_lookup_2 in Hi. }
  simpl in Hb. unfold init_zIndex.
  destruct (backendZIndex b) as [z|]; simpl; [|lia].
  apply bool_decide_eq_true_1 in Hb. lia.
Qed.

Lemma all_positive_step (e : Event) (s : Hook) :
  init_positive e = true →
  all_positive (notes s) ∧ proto_positive (notes_proto s) →
  all_positive (notes (handle e s)) ∧ proto_positive (notes_proto (handle e s)).
Proof.
  intros He [Hs Hp].
  destruct (handle_frame e s) as (-> & -> & _).
  destruct e as [| |ws|data|ws|ws|t|[note|id]|k]; try done.
  - destruct data as [| |[msg_notes|]|[b|]|[id|]|]; simpl; try done.
    + split.
      * intros k n Hn. unfold noteMap in Hn.
        apply reduce_init_lookup in Hn as [Hn | (i & b & Hi & _ & _ & _ & ->)];
          [by destruct (lookup_empty_Some k n)|].
        eexists; split; [done|]. by apply (init_element_positive msg_notes).
      * intros p Hproto. unfold noteMap in Hproto.
        apply reduce_init_proto in Hproto as [Hproto | (i & b & Hi & _ & ->)];
          [done|].
        eexists; split; [done|]. by apply (init_element_positive msg_notes).
    + destruct (BackendNote.id b) as [id|]; [|done].
      destruct (truthy id); [|done]. simpl. split; [|done].
      unfold update_updater.
      eapply all_positive_insert; [done | done |]. unfold update_finalZIndex.
      pose proof (known_positive (notes s) (notes_proto s) id 1 Hs Hp) as H1.
      destruct (backendZIndex b) as [z|]; [|lia].
      case_bool_decide; [|lia].
      destruct (known_zIndex (notes s) (notes_proto s) id); simpl in *; lia.
    + destruct (truthy id); [|done]. simpl. split; [|done].
      by apply all_positive_delete.
  - split; [|done]. unfold perform. rewrite notes_upsertNote.
    eapply all_positive_insert; [done | done |]. unfold upsert_finalZIndex.
    pose proof (known_positive (notes s) (notes_proto s) (Note.id note) 1 Hs Hp)
      as H1.
    destruct (Note.zIndex note) as [z|]; [|lia]. case_bool_decide; lia.
  - split; [|done]. unfold perform. rewrite notes_deleteNote.
    by apply all_positive_delete.
Qed.

(** X4.  Every stored zIndex is at least 1, and stays so, through every
    event except an [init] frame that itself carries a zero or negative
    zIndex: local upserts and inbound updates replace such a value, deletes
    remove notes, and the events of the connection do not touch the
    collection.  The prototype of the collection object, which an update
    for the id ["__proto__"] reads, is here the ordinary one or a note with
    a zIndex of at least 1. *)
Theorem zIndex_stays_positive (events : list Event) (s : Hook) :
  forallb init_positive events = true →
  all_positive (notes s) →
  proto_positive (notes_proto s) →
  all_positive (notes (handle_all events s)).
Proof.
  intros Hev Hs Hp.
  assert (Hall : all_positive (notes (handle_all events s)) ∧
                 proto_positive (notes_proto (handle_all events s))); [|tauto].
  revert s Hev Hs Hp.
  induction events as [|e events IH]; intros s Hev Hs Hp; [done|].
  simpl in *. apply andb_true_iff in Hev as [He Hev].
  destruct (all_positive_step e s He (conj Hs Hp)) as [Hs' Hp'].
  by apply IH.
Qed.

End Positivity.

Lemma zIndex_stays_positive_witness :
  all_positive
    (notes (@handle_all test_host
              [Mounted;
               Received (Init (Some [Some (backend_of (Some "a") (Some 3) None);
                                     Some (backend_of (Some "b") None None)]));
               Intended (Upsert (note_of "a" (Some (-4))));
               Received (Update (Some (backend_of (Some "b") (Some 0) None)))]
              initial)).
Proof.
  apply (@zIndex_stays_positive test_host); [reflexivity | | done].
  intros k n Hn. by destruct (lookup_empty_Some k n).
Defined.

(** ** The queue and the timers, whatever happens *)

Lemma enqueue_length (payload : string) (s : Hook) :
  (length (messageQueue s) ≤ MAX_QUEUE_SIZE)%nat →
  (length (messageQueue (enqueue payload s)) ≤ MAX_QUEUE_SIZE)%nat.
Proof. intros Hlen. rewrite enqueue_last_n by done. apply last_n_length. Qed.

Lemma send_or_enqueue_length (payload : string) (s : Hook) :
  (length (messageQueue s) ≤ MAX_QUEUE_SIZE)%nat →
  (length (messageQueue (send_or_enqueue payload s)) ≤ MAX_QUEUE_SIZE)%nat.
Proof.
  intros Hlen. unfold send_or_enqueue. destruct (is_OPEN _).
  - destruct (socketRef s); [by rewrite messageQueue_WebSocket_send | done].
  - by apply enqueue_length.
Qed.

Section Capacity.
Context {host : Runtime}.

(** X5.  The outbound queue never holds more than 100 entries, whatever
    the events and calls that reach the hook and in whatever order. *)
Theorem queue_never_exceeds_capacity (events : list Event) (s : Hook) :
  (length (messageQueue s) ≤ MAX_QUEUE_SIZE)%nat →
  (length (messageQueue (handle_all events s)) ≤ MAX_QUEUE_SIZE)%nat.
Proof.
  revert s. induction events as [|e events IH]; intros s Hlen; [done|].
  simpl. apply IH.
  destruct (handle_frame e s) as (_ & _ & _ & ->).
  destruct e as [| |ws|data|ws|ws|t|[note|id]|k]; try done.
  - unfold open_event, onopen.
    destruct (isMountedRef (set_readyState ws OPEN s)); simpl.
    + rewrite messageQueue_flush by done. simpl. lia.
    + by rewrite messageQueue_WebSocket_close, messageQueue_set_readyState.
  - unfold deleteNote. by apply send_or_enqueue_length.
  - unfold updater_runs. destruct (updaters s !! k); [|done].
    by apply send_or_enqueue_length.
Qed.

End Capacity.

Lemma queue_never_exceeds_capacity_witness :
  (length (messageQueue
     (@handle_all test_host
        [Mounted; Intended (Remove "a"); Closed 0%nat; TimerFired 0%nat;
         Intended (Upsert (note_of "b" None)); UpdaterRan 0; UpdaterRan 0;
         Opened 1%nat]
        initial)) ≤ MAX_QUEUE_SIZE)%nat.
Proof.
  apply (@queue_never_exceeds_capacity test_host). vm_compute. lia.
Defined.

Lemma timers_onclose (s : Hook) :
  timers (onclose s) =
    if isMountedRef s && bool_decide (reconnectAttempts s < MAX_RECONNECT_ATTEMPTS)
    then timers s ++
         [Some (Z.min (INITIAL_RECONNECT_DELAY * 2 ^ reconnectAttempts s) 30000)]
    else timers s.
Proof.
  unfold onclose. simpl. destruct (isMountedRef s); simpl; [|done].
  by case_bool_decide.
Qed.

Lemma delays_bounded_cleared (t : nat) (s s' : Hook) :
  timers s' = <[t := None]> (timers s) → delays_bounded s → delays_bounded s'.
Proof.
  intros Ht Hs t' delay Hd. rewrite Ht in Hd.
  destruct (decide (t = t')) as [<-|Hne].
  - apply list_lookup_insert_Some in Hd as [[_ [? _]] | [? _]]; done.
  - rewrite list_lookup_insert_ne in Hd by done. by apply (Hs t').
Qed.

Lemma delays_bounded_same (s s' : Hook) :
  timers s' = timers s → delays_bounded s → delays_bounded s'.
Proof. intros Ht Hs t delay Hd. rewrite Ht in Hd. by apply (Hs t). Qed.

Section Timers.
Context {host : Runtime}.

Lemma timers_unmount (s : Hook) :
  timers (unmount s) =
    match reconnectTimeoutRef s with
    | Some t => <[t := None]> (timers s)
    | None => timers s
    end.
Proof.
  unfold unmount. simpl. destruct (reconnectTimeoutRef s); simpl;
    (destruct (socketRef s); simpl; [by rewrite WebSocket_close_frame | done]).
Qed.

Lemma timers_timer_fires (t : nat) (s : Hook) :
  timers (timer_fires t s) =
    match timers s !! t with
    | Some (Some _) => <[t := None]> (timers s)
    | _ => timers s
    end.
Proof.
  unfold timer_fires, reconnect_callback.
  destruct (timers s !! t) as [[delay|]|]; try done. simpl.
  destruct (isMountedRef s); simpl; [|done]. by rewrite connect_frame.
Qed.

Lemma retry_state_step (e : Event) (s : Hook) :
  0 ≤ reconnectAttempts s ∧ delays_bounded s →
  0 ≤ reconnectAttempts (handle e s) ∧ delays_bounded (handle e s).
Proof.
  intros [Hcount Hdelays].
  destruct (is_local e) eqn:He.
  { rewrite (local_frame e s He). simpl. split; [done|].
    by apply (delays_bounded_same s). }
  destruct e as [| |ws|data|ws|ws|t|i|k]; try done; simpl.
  - unfold mount. rewrite connect_frame. simpl. split; [done|].
    by apply (delays_bounded_same s).
  - rewrite unmount_frame at 1. simpl. split; [done|].
    pose proof (timers_unmount s) as Ht.
    destruct (reconnectTimeoutRef s);
      [by apply (delays_bounded_cleared _ s _ Ht)
      | by apply (delays_bounded_same s)].
  - split.
    + unfold open_event, onopen. rewrite (set_readyState_frame ws OPEN s). simpl.
      destruct (isMountedRef s); simpl;
        [by rewrite flush_frame | by rewrite WebSocket_close_frame].
    + apply (delays_bounded_same s); [|done]. by rewrite open_event_frame.
  - rewrite onmessage_frame. simpl. split; [done|].
    by apply (delays_bounded_same s).
  - unfold close_event. rewrite reconnectAttempts_onclose.
    destruct (reconnectAttempts_set_readyState ws CLOSED s) as (Ha & Hm & Ht & _).
    rewrite Ha. split; [done|].
    intros t delay Hd. rewrite timers_onclose, Ha, Ht in Hd.
    destruct (isMountedRef _ && _); [|by apply (Hdelays t)].
    apply lookup_app_Some in Hd as [Hd | [_ Hd]]; [by apply (Hdelays t)|].
    destruct (t - length (timers s))%nat; simpl in Hd; [|done].
    injection Hd as <-. unfold INITIAL_RECONNECT_DELAY.
    assert (1 ≤ 2 ^ reconnectAttempts s)
      by (apply (Z.pow_le_mono_r 2 0); lia).
    lia.
  - unfold onerror. rewrite WebSocket_close_frame. simpl. split; [done|].
    by apply (delays_bounded_same s).
  - rewrite reconnectAttempts_timer_fires. split.
    + destruct (timers s !! t) as [[d|]|]; [destruct (isMountedRef s)| |]; lia.
    + pose proof (timers_timer_fires t s) as Ht.
      destruct (timers s !! t) as [[d|]|];
        [by apply (delays_bounded_cleared _ s _ Ht)
        | by apply (delays_bounded_same s) ..].
Qed.

(** X6.  Whatever happens to a hook, its attempt counter is never
    negative, and every retry it ever schedules waits between 1000 and
    30000 ms. *)
Theorem retry_delays_bounded (events : list Event) :
  0 ≤ reconnectAttempts (handle_all events initial) ∧
  ∀ (t : nat) (delay : Z),
    timers (handle_all events initial) !! t = Some (Some delay) →
    1000 ≤ delay ≤ 30000.
Proof.
  assert (Hall : ∀ s, 0 ≤ reconnectAttempts s ∧ delays_bounded s →
            0 ≤ reconnectAttempts (handle_all events s) ∧
            delays_bounded (handle_all events s)).
  { induction events as [|e events IH]; intros s Hs; [done|].
    simpl. by apply IH, retry_state_step. }
  destruct (Hall initial) as [Hcount Hdelays].
  { split; [done|]. by intros [|t'] d Hd. }
  split; [done|]. intros t delay Hd. by apply (Hdelays t).
Qed.

End Timers.

Lemma retry_delays_bounded_witness :
  0 ≤ reconnectAttempts
        (@handle_all test_host
           [Mounted; Closed 0%nat; TimerFired 0%nat; Closed 1%nat] initial) ∧
  1000 ≤ 2000 ≤ 30000.
Proof.
  destruct (@retry_delays_bounded test_host
              [Mounted; Closed 0%nat; TimerFired 0%nat; Closed 1%nat])
    as [Hcount Hdelays].
  split; [exact Hcount | apply (Hdelays 1%nat 2000); reflexivity].
Defined.

(** ** After the cleanup *)

Lemma sent_set_readyState (ws : nat) (rs : ReadyState) (s : Hook) :
  sent <$> sockets (set_readyState ws rs s) = sent <$> sockets s.
Proof.
  unfold set_readyState. destruct (sockets s !! ws) as [sock|] eqn:Hws; [|done].
  simpl. rewrite list_fmap_insert. simpl. apply list_insert_id.
  by rewrite list_lookup_fmap, Hws.
Qed.

Lemma sent_WebSocket_close (ws : nat) (s : Hook) :
  sent <$> sockets (WebSocket_close ws s) = sent <$> sockets s.
Proof.
  unfold WebSocket_close. destruct (sockets s !! ws) as [sock|]; [|done].
  destruct (readyState sock); try done; apply sent_set_readyState.
Qed.

Section Disposal.
Context {host : Runtime}.

Lemma unmount_disposed (s : Hook) : disposed (unmount s).
Proof. rewrite unmount_frame. by split. Qed.

Lemma disposed_step (e : Event) (s : Hook) :
  not_Mounted e = true → disposed s →
  disposed (handle e s) ∧
  status (handle e s) = status s ∧
  reconnectAttempts (handle e s) = reconnectAttempts s ∧
  sent <$> sockets (handle e s) = sent <$> sockets s ∧
  length (timers (handle e s)) = length (timers s).
Proof.
  intros He [Hm Hr]. unfold disposed.
  destruct (is_local e) eqn:Hlocal.
  { split_and!; try (by rewrite (local_frame e s Hlocal)).
    by rewrite (local_sockets_closed e s Hlocal Hr). }
  destruct e as [| |ws|data|ws|ws|t|i|k]; try done; simpl.
  - split_and!; try done; try (by rewrite unmount_frame).
    + unfold unmount. simpl. destruct (reconnectTimeoutRef s); simpl;
        by rewrite Hr.
    + rewrite timers_unmount.
      destruct (reconnectTimeoutRef s); [by rewrite length_insert | done].
  - assert (Hopen : open_event ws s = WebSocket_close ws (set_readyState ws OPEN s)).
    { unfold open_event, onopen. rewrite (set_readyState_frame ws OPEN s) at 1.
      simpl. by rewrite Hm. }
    rewrite Hopen.
    split_and!; try done;
      try (by rewrite WebSocket_close_frame, set_readyState_frame).
    by rewrite sent_WebSocket_close, sent_set_readyState.
  - rewrite onmessage_frame. by simpl.
  - assert (Hclose : close_event ws s =
                     set_socketRef None (set_readyState ws CLOSED s)).
    { unfold close_event, onclose. simpl.
      rewrite (set_readyState_frame ws CLOSED s) at 1. simpl. by rewrite Hm. }
    rewrite Hclose. simpl.
    split_and!; try done; try (by rewrite set_readyState_frame).
    apply sent_set_readyState.
  - unfold onerror.
    split_and!; try done; try (by rewrite WebSocket_close_frame).
    apply sent_WebSocket_close.
  - unfold timer_fires, reconnect_callback.
    destruct (timers s !! t) as [[delay|]|]; try done. simpl. rewrite Hm. simpl.
    split_and!; try done. by rewrite length_insert.
Qed.

(** X7.  The cleanup leaves the hook unmounted, without a current socket
    and without a timer on record; the timer it had on record is no longer
    pending and the socket it held is no longer connecting or open.  From
    then on, until the effect runs again, no event or call constructs a
    socket, sends a frame, sets a timer, or changes the status or the
    attempt counter. *)
Theorem unmount_is_final (events : list Event) (s : Hook) :
  forallb not_Mounted events = true →
  let s0 := unmount s in
  let s' := handle_all events s0 in
  (isMountedRef s0 = false ∧ socketRef s0 = None ∧ reconnectTimeoutRef s0 = None) ∧
  (∀ t delay, reconnectTimeoutRef s = Some t →
        timers s0 !! t ≠ Some (Some delay)) ∧
  (∀ ws sock, socketRef s = Some ws → sockets s0 !! ws = Some sock →
        readyState sock = CLOSING ∨ readyState sock = CLOSED) ∧
  isMountedRef s' = false ∧ socketRef s' = None ∧
  status s' = status s ∧
  reconnectAttempts s' = reconnectAttempts s ∧
  length (sockets s') = length (sockets s) ∧
  sent <$> sockets s' = sent <$> sockets s0 ∧
  length (timers s') = length (timers s).
Proof.
  intros Hev s0 s'. subst s0 s'.
  assert (Hrun : ∀ l s1, forallb not_Mounted l = true → disposed s1 →
            disposed (handle_all l s1) ∧
            status (handle_all l s1) = status s1 ∧
            reconnectAttempts (handle_all l s1) = reconnectAttempts s1 ∧
            sent <$> sockets (handle_all l s1) = sent <$> sockets s1 ∧
            length (timers (handle_all l s1)) = length (timers s1)).
  { induction l as [|e l IH]; intros s1 Hl Hs1; [done|].
    simpl in *. apply andb_true_iff in Hl as [He Hl].
    destruct (disposed_step e s1 He Hs1) as (Hd & Hst1 & Hat1 & Hsent1 & Htm1).
    destruct (IH _ Hl Hd) as (Hd' & Hst2 & Hat2 & Hsent2 & Htm2).
    split_and!; [done | congruence ..]. }
  destruct (Hrun events (unmount s) Hev (unmount_disposed s))
    as ([Hm Hr] & Hst & Hat & Hsent & Htm).
  assert (Htimers : length (timers (unmount s)) = length (timers s)).
  { rewrite timers_unmount.
    destruct (reconnectTimeoutRef s); [by rewrite length_insert | done]. }
  assert (Hsockets : length (sockets (unmount s)) = length (sockets s)).
  { unfold unmount. simpl.
    destruct (reconnectTimeoutRef s); simpl; destruct (socketRef s) as [ws|]; simpl;
      try done; unfold WebSocket_close, set_readyState; simpl;
      destruct (sockets s !! ws) as [sock|]; try done;
      destruct (readyState sock); simpl; by rewrite ?length_insert. }
  split_and!; try done.
  - by rewrite unmount_frame.
  - by rewrite unmount_frame.
  - by rewrite unmount_frame.
  - intros t delay Ht. rewrite timers_unmount, Ht. intros Hd.
    apply list_lookup_insert_Some in Hd as [[_ [? _]] | [? _]]; done.
  - intros ws sock Hws. unfold unmount. simpl.
    destruct (reconnectTimeoutRef s); simpl; rewrite Hws; simpl;
      unfold WebSocket_close, set_readyState; simpl;
      destruct (sockets s !! ws) as [sock0|] eqn:Hsock; simpl; try congruence;
      destruct (readyState sock0) eqn:Hrs; simpl; rewrite ?Hsock; simpl;
      intros Hlook;
      try (rewrite list_lookup_insert_eq in Hlook
             by (by apply lookup_lt_Some in Hsock));
      injection Hlook as <-; simpl; rewrite ?Hrs; auto.
  - by rewrite Hst, unmount_frame.
  - by rewrite Hat, unmount_frame.
  - rewrite <- Hsockets. rewrite <- (length_fmap sent (sockets (handle_all events (unmount s)))), Hsent.
    by rewrite length_fmap.
  - by rewrite Htm.
Qed.

End Disposal.

Lemma unmount_is_final_witness :
  let s' := @handle_all test_host
              [Opened 0%nat; Closed 0%nat; TimerFired 0%nat;
               Intended (Upsert (note_of "a" (Some 1))); UpdaterRan 0]
              (unmount mounted) in
  status s' = connecting ∧ length (sockets s') = 1%nat ∧
  length (timers s') = 0%nat ∧ reconnectAttempts s' = 0.
Proof.
  destruct (@unmount_is_final test_host
              [Opened 0%nat; Closed 0%nat; TimerFired 0%nat;
               Intended (Upsert (note_of "a" (Some 1))); UpdaterRan 0] mounted eq_refl)
    as (_ & _ & _ & _ & _ & Hst & Hat & Hso & _ & Htm).
  split; [exact Hst|]. split; [exact Hso|]. split; [exact Htm | exact Hat].
Defined.

(** ** Reconnecting after a session that opened *)

(** X8.  A session that opens resets the backoff: when it later closes, the
    retry is scheduled after 1000 ms, whatever the attempt counter was
    before the open. *)
Theorem open_resets_backoff (ws ws' : nat) (s : Hook) :
  isMountedRef s = true →
  let s1 := open_event ws s in
  reconnectAttempts s1 = 0 ∧
  new_timer s1 (close_event ws' s1) = Some (length (timers s), 1000) ∧
  status (close_event ws' s1) = closed.
Proof.
  intros Hmounted s1.
  assert (Hs1 : isMountedRef s1 = true ∧ reconnectAttempts s1 = 0 ∧
                timers s1 = timers s).
  { subst s1. split_and!; try (by rewrite open_event_frame).
    unfold open_event, onopen. rewrite (set_readyState_frame ws OPEN s). simpl.
    rewrite Hmounted. simpl. by rewrite flush_frame. }
  destruct Hs1 as (Hm & Ha & Ht). split; [done|].
  destruct (reconnectAttempts_set_readyState ws' CLOSED s1) as (Ha' & Hm' & Ht' & _).
  destruct (onclose_schedules (set_readyState ws' CLOSED s1))
    as (Htimers & _ & _ & Hstatus & _); [congruence | rewrite Ha', Ha; done |].
  split; [|done]. unfold new_timer, close_event.
  rewrite Htimers, Ht', Ha', Ha, Ht, list_lookup_middle by done. done.
Qed.

Lemma open_resets_backoff_witness :
  let s := (@failures test_host 3 mounted).2 in
  reconnectAttempts s = 3 ∧
  new_timer (open_event 3%nat s) (close_event 3%nat (open_event 3%nat s)) =
    Some (3%nat, 1000).
Proof.
  split; [reflexivity|].
  exact (proj1 (proj2 (open_resets_backoff 3%nat 3%nat
                         (@failures test_host 3 mounted).2 eq_refl))).
Defined.

(** ** Local intents, end to end *)

Lemma known_zIndex_insert (m : gmap string Note.t) (proto : option Note.t)
    (k : string) (n : Note.t) :
  known_zIndex (<[k := n]> m) proto k = Note.zIndex n.
Proof. unfold known_zIndex. by rewrite lookup_insert_eq. Qed.

Section Delivery.
Context {host : Runtime}.

Lemma local_run_offline (events : list Event) :
  ∀ s : Hook,
  Forall (λ e, is_local e = true) events →
  isMountedRef (handle_all events s) = isMountedRef s.
Proof.
  induction events as [|e events IH]; intros s Hlocal; [done|].
  inversion Hlocal as [|? ? He Hrest]; subst. simpl.
  rewrite (IH (handle e s) Hrest). by rewrite (local_frame e s He).
Qed.

(** X9.  What is queued offline is delivered on reconnect.  With no
    session open, an empty queue and every recorded frame non-empty, a run
    of upserts and deletes, React running the updaters of the upserts
    whenever and however often it does, that pushes at most 100 frames,
    followed by the open event of a socket, puts on that socket exactly the
    frames pushed, in the order of the pushes, and leaves the queue empty.
    When each updater runs once, before the next call, these are the frames
    of the calls, one each, in the order of the calls.  ([JSON.stringify]
    returns no empty string.) *)
Theorem offline_intents_delivered (events : list Event) (intents : list Intent)
    (ws : nat) (sock : WebSocket) (s : Hook) :
  (∀ o, truthy (JSON_stringify o) = true) →
  Forall (λ e, is_local e = true) events →
  is_OPEN (current_readyState s) = false →
  messageQueue s = [] →
  Forall (λ msg, truthy msg = true) (updaters s) →
  (length (pushed_all events s) ≤ 100)%nat →
  isMountedRef s = true →
  sockets s !! ws = Some sock →
  let s' := open_event ws (handle_all events s) in
  sockets s' =
    <[ws := Build_WebSocket OPEN (sent sock ++ pushed_all events s)]> (sockets s) ∧
  messageQueue s' = [] ∧ status s' = open ∧
  (events = prompt (length (updaters s)) intents →
   sockets s' =
     <[ws := Build_WebSocket OPEN (sent sock ++ payloads intents s)]> (sockets s)).
Proof.
  intros Hjson Hlocal Hclosed Hempty Hlog Hlen Hmounted Hws s'. subst s'.
  destruct (local_run_closed events s Hlocal Hclosed) as (Hq & Hs & _).
  { rewrite Hempty. simpl. lia. }
  rewrite Hempty in Hq. simpl in Hq.
  rewrite last_n_short in Hq by done.
  pose proof (local_run_offline events s Hlocal) as Hm.
  destruct (queue_entries_truthy_run events Hjson s) as [Htruthy _].
  { by rewrite Hempty. }
  assert (Hopen :
    sockets (open_event ws (handle_all events s)) =
      <[ws := Build_WebSocket OPEN (sent sock ++ pushed_all events s)]> (sockets s) ∧
    messageQueue (open_event ws (handle_all events s)) = [] ∧
    status (open_event ws (handle_all events s)) = open).
  { unfold open_event, onopen, set_readyState. rewrite Hs, Hws. simpl.
    rewrite Hm, Hmounted. simpl.
    rewrite (flush_sends ws _ _ (sent sock)); simpl.
    - by rewrite list_insert_insert_eq, Hq.
    - apply list_lookup_insert_eq. by apply lookup_lt_Some in Hws.
    - done.
    - done. }
  destruct Hopen as (Hsockets & Hqueue & Hstatus).
  split_and!; try done.
  intros ->. rewrite Hsockets. by rewrite pushed_prompt.
Qed.

End Delivery.

Lemma offline_intents_delivered_witness :
  let calls := [Upsert (note_of "a" (Some 1)); Remove "a";
                Upsert (note_of "b" None)] in
  let s' := open_event 0%nat (@handle_all test_host (prompt 0 calls) mounted) in
  sockets s' =
    <[0%nat := Build_WebSocket OPEN
                 (sent (Build_WebSocket CONNECTING []) ++
                  @payloads test_host calls mounted)]> (sockets mounted).
Proof.
  intros calls.
  refine (proj2 (proj2 (proj2
            (@offline_intents_delivered test_host (prompt 0 calls) calls
               0%nat (Build_WebSocket CONNECTING []) mounted
               _ _ eq_refl eq_refl _ _ eq_refl eq_refl))) eq_refl).
  - by intros [note|id].
  - repeat constructor.
  - constructor.
  - vm_compute. lia.
Defined.

Section Upsert.
Context {host : Runtime}.


(** X11.  On the collection, a second identical [upsertNote] changes
    nothing, a [deleteNote] after an [upsertNote] of the same id leaves
    what deleting alone leaves, and a second [deleteNote] changes
    nothing. *)
Theorem upsert_delete_compose (note : Note.t) (s : Hook) :
  notes (upsertNote note (upsertNote note s)) = notes (upsertNote note s) ∧
  notes (deleteNote (Note.id note) (upsertNote note s)) =
    notes (deleteNote (Note.id note) s) ∧
  notes (deleteNote (Note.id note) (deleteNote (Note.id note) s)) =
    notes (deleteNote (Note.id note) s).
Proof.
  split_and!.
  - rewrite (notes_upsertNote note (upsertNote note s)).
    rewrite (notes_upsertNote note s), known_zIndex_insert, insert_insert_eq.
    simpl. f_equal. f_equal. unfold upsert_finalZIndex.
    destruct (Note.zIndex note) as [z|]; [case_bool_decide|]; done.
  - by rewrite !notes_deleteNote, notes_upsertNote, delete_insert_eq.
  - rewrite !notes_deleteNote. apply delete_id, lookup_delete_eq.
Qed.

End Upsert.


(** ** Inbound updates: echoes and arrival order *)

(** X12.  An inbound [update] that carries a stored note as it is, zIndex
    included, leaves the collection and every other part of the state as
    they are: the echo of the hook's own upsert is harmless.  (The
    collection object it leaves has the ordinary prototype.) *)
Theorem echo_changes_nothing (n : Note.t) (s : Hook) :
  notes s !! Note.id n = Some n → is_Some (Note.zIndex n) →
  let s' := onmessage (Update (Some (as_backend n))) s in
  s' = setNotes_object (notes s) (notes_proto s') s ∧
  (notes_proto s = None → s' = s).
Proof.
  intros Hstored [z Hz] s'.
  assert (Hnotes : notes s' = notes s).
  { subst s'. simpl. destruct (truthy (Note.id n)); [|done].
    unfold update_updater, update_finalZIndex, backendZIndex, known_zIndex.
    simpl. rewrite Hstored, Hz. simpl.
    assert (Hfinal : (if bool_decide (0 < z) then Z.max z z else z) = z)
      by (case_bool_decide; lia).
    rewrite Hfinal.
    replace (normalizedNote (Note.id n) (as_backend n) z) with n
      by (destruct n; simpl in *; by subst).
    by rewrite insert_id. }
  assert (Hframe : s' = setNotes_object (notes s) (notes_proto s') s).
  { rewrite <- Hnotes. apply onmessage_frame. }
  split; [exact Hframe|].
  intros Hproto. rewrite Hframe.
  assert (Hproto' : notes_proto s' = None).
  { subst s'. simpl. destruct (truthy (Note.id n)); done. }
  rewrite Hproto', <- Hproto. apply setNotes_same.
Qed.

Lemma echo_changes_nothing_witness :
  onmessage (Update (Some (as_backend (note_of "b" (Some 5))))) board = board.
Proof.
  apply (echo_changes_nothing (note_of "b" (Some 5)) board);
    [reflexivity | by exists 5 | reflexivity].
Defined.

(** X13.  Two inbound updates for one id leave the same zIndex in either
    order of arrival, and an update received twice leaves the collection it
    left the first time. *)
Theorem update_order_irrelevant_for_zIndex (b1 b2 : BackendNote.t) (s : Hook) :
  BackendNote.id b1 = BackendNote.id b2 →
  (∀ k,
     existingZIndex
       (notes (onmessage (Update (Some b2)) (onmessage (Update (Some b1)) s))) k =
     existingZIndex
       (notes (onmessage (Update (Some b1)) (onmessage (Update (Some b2)) s))) k) ∧
  notes (onmessage (Update (Some b1)) (onmessage (Update (Some b1)) s)) =
    notes (onmessage (Update (Some b1)) s).
Proof.
  intros Hid. simpl. rewrite <- Hid.
  destruct (BackendNote.id b1) as [id|]; [|done].
  destruct (truthy id); [|done]. simpl. unfold update_updater.
  rewrite !known_zIndex_insert. simpl. split.
  - intros k. destruct (decide (id = k)) as [<-|Hne].
    + rewrite !existingZIndex_insert. simpl. f_equal.
      unfold update_finalZIndex.
      destruct (backendZIndex b1) as [z1|], (backendZIndex b2) as [z2|],
        (known_zIndex (notes s) (notes_proto s) id) as [e|]; simpl;
        repeat case_bool_decide; simpl; lia.
    + by rewrite !existingZIndex_insert_ne.
  - rewrite insert_insert_eq. f_equal. f_equal. unfold update_finalZIndex.
    destruct (backendZIndex b1) as [z1|],
      (known_zIndex (notes s) (notes_proto s) id) as [e|];
      simpl; repeat case_bool_decide; simpl; lia.
Qed.

Lemma update_order_irrelevant_for_zIndex_witness :
  existingZIndex
    (notes (onmessage (Update (Some (backend_of (Some "a") None (Some 9))))
              (onmessage (Update (Some (backend_of (Some "a") (Some 4) None)))
                 board))) "a" =
  existingZIndex
    (notes (onmessage (Update (Some (backend_of (Some "a") (Some 4) None)))
              (onmessage (Update (Some (backend_of (Some "a") None (Some 9))))
                 board))) "a".
Proof.
  exact (proj1 (update_order_irrelevant_for_zIndex
                  (backend_of (Some "a") (Some 4) None)
                  (backend_of (Some "a") None (Some 9)) board eq_refl) "a").
Defined.

(** * Further properties of the board *)

Lemma foldl_max_attained (l : list Note.t) :
  ∀ acc : Z,
  let result := foldl (λ max n, Z.max max (default 0 (Note.zIndex n))) acc l in
  result = acc ∨ ∃ n, n ∈ l ∧ default 0 (Note.zIndex n) = result.
Proof.
  induction l as [|n0 l IH]; intros acc; simpl; [by left|].
  destruct (IH (Z.max acc (default 0 (Note.zIndex n0)))) as [Heq | (n & Hn & Heq)].
  - rewrite Heq. destruct (Z.max_spec acc (default 0 (Note.zIndex n0)))
      as [[_ ->] | [_ ->]]; [|by left].
    right. exists n0. split; [apply list_elem_of_here | done].
  - right. exists n. split; [by apply list_elem_of_further | done].
Qed.

Lemma maxZIndex_attained (m : gmap string Note.t) :
  maxZIndex m = 0 ∨
  ∃ k n, m !! k = Some n ∧ default 0 (Note.zIndex n) = maxZIndex m.
Proof.
  destruct (foldl_max_attained (map_to_list m).*2 0) as [H0 | (n & Hn & Heq)];
    [by left|].
  right. apply list_elem_of_fmap in Hn as ([k n'] & -> & Hkn).
  apply elem_of_map_to_list in Hkn. by exists k, n'.
Qed.

Lemma maxZIndex_unique (m : gmap string Note.t) (M : Z) :
  0 ≤ M →
  (∀ k n, m !! k = Some n → default 0 (Note.zIndex n) ≤ M) →
  (M = 0 ∨ ∃ k n, m !! k = Some n ∧ default 0 (Note.zIndex n) = M) →
  maxZIndex m = M.
Proof.
  intros Hnonneg Hbound Hreached.
  pose proof (maxZIndex_nonneg m) as Hmax.
  apply Z.le_antisymm.
  - destruct (maxZIndex_attained m) as [-> | (k & n & Hk & <-)];
      [done | by apply (Hbound k)].
  - destruct Hreached as [-> | (k & n & Hk & <-)];
      [done | by apply (maxZIndex_ge m k)].
Qed.

(** X14.  [maxZIndex] is the largest zIndex of the collection, counted as 0
    where it is absent, and 0 when the collection is empty or holds no
    positive zIndex: it bounds every note, it is never negative, and it is
    0 or the zIndex of some note.  These three facts determine it. *)
Theorem maxZIndex_characterised (m : gmap string Note.t) (M : Z) :
  maxZIndex m = M ↔
  0 ≤ M ∧
  (∀ k n, m !! k = Some n → default 0 (Note.zIndex n) ≤ M) ∧
  (M = 0 ∨ ∃ k n, m !! k = Some n ∧ default 0 (Note.zIndex n) = M).
Proof.
  split.
  - intros <-. split_and!;
      [apply maxZIndex_nonneg | apply maxZIndex_ge | apply maxZIndex_attained].
  - intros (Hnonneg & Hbound & Hreached). by apply maxZIndex_unique.
Qed.

Lemma maxZIndex_insert_top (m : gmap string Note.t) (k : string) (n : Note.t) (z : Z) :
  Note.zIndex n = Some z → 0 ≤ z →
  (∀ k' n', m !! k' = Some n' → default 0 (Note.zIndex n') ≤ z) →
  maxZIndex (<[k := n]> m) = z.
Proof.
  intros Hz Hnonneg Hbound. apply maxZIndex_unique; [done| |].
  - intros k' n' Hn. apply lookup_insert_Some in Hn as [[_ <-] | [_ Hn]];
      [by rewrite Hz | by apply (Hbound k')].
  - right. exists k, n. rewrite lookup_insert_eq, Hz. done.
Qed.

Section Stacking.
Context {host : Runtime}.

(** X15.  The note that [handleAddNote] creates has the fields the handler
    gives it and the zIndex [maxZIndex + 1], a sum of doubles; every other
    note is as before.  While the maximum is below 2^53 the sum is the
    maximum plus 1: it becomes the new maximum and every other note lies
    strictly below it.  Whatever double the maximum is, the sum becomes the
    new maximum and is not below the old one; at 2^53 it is 2^53 again. *)
Theorem added_note_is_on_top (uuid : string) (s : Hook) :
  let max := maxZIndex (notes s) in
  let s' := add_note uuid s in
  notes s' !! uuid =
    Some (Note.mk uuid 50 50 250 250 yellow "New Sticky Note" EmptyString
            (Some (number_add max 1))) ∧
  (∀ k n, k ≠ uuid → notes s !! k = Some n → notes s' !! k = Some n) ∧
  (max < 2 ^ 53 →
   number_add max 1 = max + 1 ∧
   maxZIndex (notes s') = max + 1 ∧
   ∀ k n, k ≠ uuid → notes s !! k = Some n →
     default 0 (Note.zIndex n) < max + 1) ∧
  (is_double max = true →
   maxZIndex (notes s') = number_add max 1 ∧ max ≤ number_add max 1) ∧
  number_add (2 ^ 53) 1 = 2 ^ 53.
Proof.
  intros max s'. subst s'. unfold add_note, handleAddNote. fold max.
  pose proof (maxZIndex_nonneg (notes s)) as Hnonneg. fold max in Hnonneg.
  pose proof (number_add_one_pos max Hnonneg) as Hpos.
  rewrite notes_upsertNote. simpl. unfold upsert_finalZIndex.
  rewrite bool_decide_eq_true_2 by done. split_and!.
  - by rewrite lookup_insert_eq.
  - intros k n Hne Hn. by rewrite lookup_insert_ne.
  - intros Hsmall. rewrite number_add_one by done. split_and!; [done| |].
    + apply maxZIndex_insert_top; [done | lia |].
      intros k n Hn. pose proof (maxZIndex_ge _ _ _ Hn). lia.
    + intros k n Hne Hn. pose proof (maxZIndex_ge _ _ _ Hn). lia.
  - intros Hdouble. pose proof (number_add_one_ge max Hnonneg Hdouble) as Hge.
    split; [|done]. apply maxZIndex_insert_top; [done | lia |].
    intros k n Hn. pose proof (maxZIndex_ge _ _ _ Hn). lia.
  - reflexivity.
Qed.

(** X16.  After bring-to-front, the entity's zIndex is the maximum of the
    collection, and bringing it to the front again changes nothing in the
    collection.  (The maximum is a double, as every number of the program
    is.) *)
Theorem bring_to_front_reaches_top (s : Hook) (updatedNote stored : Note.t) (z : Z) :
  is_double (maxZIndex (notes s)) = true →
  notes s !! Note.id updatedNote = Some stored →
  Note.zIndex stored = Some z → Note.zIndex updatedNote = Some z →
  let s1 := bring_to_front updatedNote s in
  ∃ saved top,
    notes s1 !! Note.id updatedNote = Some saved ∧
    Note.zIndex saved = Some top ∧
    maxZIndex (notes s1) = top ∧ z ≤ top ∧
    notes (bring_to_front saved s1) = notes s1.
Proof.
  intros Hdouble Hstored Hz Hz' s1.
  pose proof (maxZIndex_nonneg (notes s)) as Hnonneg.
  pose proof (handleUpdateNote_spec (maxZIndex (notes s)) s updatedNote stored z
                Hnonneg Hstored Hz Hz') as Hs1.
  simpl in Hs1. change (handleUpdateNote _ updatedNote s) with s1 in Hs1.
  pose proof (maxZIndex_ge _ _ _ Hstored) as Hle. rewrite Hz in Hle. simpl in Hle.
  pose proof (number_add_one_ge _ Hnonneg Hdouble) as Hge.
  set (top := if bool_decide (z < maxZIndex (notes s))
              then number_add (maxZIndex (notes s)) 1 else z) in *.
  set (saved := Note.with_zIndex top updatedNote) in *.
  assert (Htop : maxZIndex (notes s) ≤ top ∧ z ≤ top)
    by (subst top; case_bool_decide; lia).
  assert (Hnotes : notes s1 = <[Note.id updatedNote := saved]> (notes s))
    by (by rewrite Hs1).
  assert (Hmax : maxZIndex (notes s1) = top).
  { rewrite Hnotes. apply maxZIndex_insert_top; [done | lia |].
    intros k n Hn. pose proof (maxZIndex_ge _ _ _ Hn). lia. }
  exists saved, top. split_and!; try done; try lia.
  - rewrite Hnotes. apply lookup_insert_eq.
  - assert (Hsaved : notes s1 !! Note.id saved = Some saved)
      by (rewrite Hnotes; apply lookup_insert_eq).
    unfold bring_to_front.
    rewrite (handleUpdateNote_spec (maxZIndex (notes s1)) s1 saved saved top
               (maxZIndex_nonneg _) Hsaved eq_refl eq_refl).
    simpl. rewrite Hmax, bool_decide_eq_false_2 by lia.
    rewrite Hnotes. apply insert_insert_eq.
Qed.

End Stacking.

Lemma bring_to_front_reaches_top_witness :
  ∃ saved top,
    notes (@bring_to_front test_host (note_of "c" (Some 2)) board) !! "c"
      = Some saved ∧
    Note.zIndex saved = Some top ∧
    maxZIndex (notes (@bring_to_front test_host (note_of "c" (Some 2)) board)) = top ∧
    2 ≤ top ∧
    notes (@bring_to_front test_host saved
             (@bring_to_front test_host (note_of "c" (Some 2)) board)) =
      notes (@bring_to_front test_host (note_of "c" (Some 2)) board).
Proof.
  apply (@bring_to_front_reaches_top test_host board
           (note_of "c" (Some 2)) (note_of "c" (Some 2)) 2); reflexivity.
Defined.

Lemma maxZIndex_characterised_witness :
  0 ≤ 5 ∧
  (∀ k n, notes board !! k = Some n → default 0 (Note.zIndex n) ≤ 5) ∧
  (5 = 0 ∨ ∃ k n, notes board !! k = Some n ∧ default 0 (Note.zIndex n) = 5).
Proof.
  apply (proj1 (maxZIndex_characterised (notes board) 5)). reflexivity.
Defined.

Lemma foldl_extent_bounds (l : list Note.t) :
  ∀ accX accY : Z,
  let result :=
    foldl (λ '(maxX, maxY) note,
             (Z.max maxX (Note.x note + Note.w note),
              Z.max maxY (Note.y note + Note.h note)))
          (accX, accY) l in
  accX ≤ result.1 ∧ accY ≤ result.2 ∧
  ∀ n, n ∈ l →
    Note.x n + Note.w n ≤ result.1 ∧ Note.y n + Note.h n ≤ result.2.
Proof.
  induction l as [|n0 l IH]; intros accX accY; simpl.
  - split_and!; [lia | lia |]. intros n Hn. by apply elem_of_nil in Hn.
  - destruct (IH (Z.max accX (Note.x n0 + Note.w n0))
                 (Z.max accY (Note.y n0 + Note.h n0))) as (HX & HY & Hall).
    split_and!; [lia | lia |].
    intros n Hn. apply elem_of_cons in Hn as [->|Hn]; [lia | by apply Hall].
Qed.

(** X17.  The board is never smaller than 2000 by 2000, which is its size
    when there is no note, and it extends at least 500 beyond the right and
    bottom edge of every note. *)
Theorem boardBounds_contains_notes (m : gmap string Note.t) :
  2000 ≤ width (boardBounds m) ∧ 2000 ≤ height (boardBounds m) ∧
  boardBounds ∅ = {| width := 2000; height := 2000 |} ∧
  ∀ k n, m !! k = Some n →
    Note.x n + Note.w n + 500 ≤ width (boardBounds m) ∧
    Note.y n + Note.h n + 500 ≤ height (boardBounds m).
Proof.
  assert (Hmem : ∀ k n, m !! k = Some n → n ∈ (map_to_list m).*2).
  { intros k n Hn. apply list_elem_of_fmap. exists (k, n).
    split; [done | by apply elem_of_map_to_list]. }
  unfold boardBounds at 1 2 4 5.
  destruct ((map_to_list m).*2) as [|n0 l] eqn:Hlist.
  - simpl. split_and!; [lia | lia | done |].
    intros k n Hn. apply Hmem in Hn. by apply elem_of_nil in Hn.
  - pose proof (foldl_extent_bounds (n0 :: l) 0 0) as (HX & HY & Hall).
    destruct (foldl _ (0, 0) (n0 :: l)) as [maxX maxY]. simpl in *.
    split_and!; [lia | lia | done |].
    intros k n Hn. apply Hmem in Hn. destruct (Hall n Hn). lia.
Qed.

Lemma boardBounds_contains_notes_witness :
  Note.x (note_of "a" (Some 3)) + Note.w (note_of "a" (Some 3)) + 500
    ≤ width (boardBounds (notes board)) ∧
  Note.y (note_of "a" (Some 3)) + Note.h (note_of "a" (Some 3)) + 500
    ≤ height (boardBounds (notes board)).
Proof.
  apply (proj2 (proj2 (proj2 (boardBounds_contains_notes (notes board)))) "a").
  reflexivity.
Defined.

(** * Properties of the card's debounce *)

Lemma card_clear_pending (c : Card.t) :
  Card.one_pending c →
  length (Card.timers (Card.clear_pending c)) = length (Card.timers c) ∧
  Card.latestNoteRef (Card.clear_pending c) = Card.latestNoteRef c ∧
  Card.onUpdate_calls (Card.clear_pending c) = Card.onUpdate_calls c ∧
  ∀ timer entry, Card.timers (Card.clear_pending c) !! timer ≠ Some (Some entry).
Proof.
  intros Hone. unfold Card.clear_pending.
  destruct (Card.debounceTimer c) as [t0|] eqn:Href; simpl.
  - rewrite length_insert. split_and!; try done.
    intros timer entry Hpending.
    destruct (decide (t0 = timer)) as [<-|Hne].
    + apply list_lookup_insert_Some in Hpending as [[_ [? _]] | [? _]]; done.
    + rewrite list_lookup_insert_ne in Hpending by done.
      apply Hone in Hpending. congruence.
  - split_and!; try done. intros timer entry Hpending.
    apply Hone in Hpending. congruence.
Qed.

(** What scheduling a callback does, after the pending one was cleared. *)
Lemma card_schedule (c : Card.t) (updates : Partial.t) (delay : Z) :
  Card.one_pending c →
  let c' := Card.set_debounceTimer (Some (length (Card.timers (Card.clear_pending c))))
              (Card.setTimeout updates delay (Card.clear_pending c)).2 in
  Card.debounceTimer c' = Some (length (Card.timers c)) ∧
  length (Card.timers c') = S (length (Card.timers c)) ∧
  Card.latestNoteRef c' = Card.latestNoteRef c ∧
  Card.onUpdate_calls c' = Card.onUpdate_calls c ∧
  ∀ timer entry,
    Card.timers c' !! timer = Some (Some entry) ↔
    timer = length (Card.timers c) ∧ entry = (delay, updates).
Proof.
  intros Hone. destruct (card_clear_pending c Hone) as (Hlen & Hnote & Hcalls & Hnone).
  simpl. rewrite Hlen, length_app, Hlen. simpl.
  split_and!; try done; [lia|].
  intros timer entry. split.
  - intros Hpending. apply lookup_app_Some in Hpending as [Hp | [Hge Hp]];
      [by apply Hnone in Hp|].
    rewrite Hlen in Hge, Hp.
    destruct (timer - length (Card.timers c))%nat eqn:Hdiff; simpl in Hp; [|done].
    injection Hp as <-. split; [lia | done].
  - intros [-> ->]. rewrite <- Hlen. by rewrite list_lookup_middle.
Qed.

Lemma card_debouncedUpdate (c : Card.t) (updates : Partial.t) :
  Card.one_pending c →
  let c' := Card.debouncedUpdate updates c in
  Card.debounceTimer c' = Some (length (Card.timers c)) ∧
  length (Card.timers c') = S (length (Card.timers c)) ∧
  Card.latestNoteRef c' = Card.latestNoteRef c ∧
  Card.onUpdate_calls c' = Card.onUpdate_calls c ∧
  ∀ timer entry,
    Card.timers c' !! timer = Some (Some entry) ↔
    timer = length (Card.timers c) ∧ entry = (300, updates).
Proof. intros Hone. apply (card_schedule c updates 300 Hone). Qed.

Lemma card_one_pending_step (e : Card.Event) (c : Card.t) :
  Card.one_pending c → Card.one_pending (Card.handle e c).
Proof.
  intros Hone.
  destruct e as [note|updates|width height|timer| | |ox oy|colour]; simpl; try done.
  - destruct (card_debouncedUpdate c updates Hone) as (Href & _ & _ & _ & Hp).
    intros timer entry Hpending. apply Hp in Hpending as [-> _]. done.
  - unfold Card.resized. destruct (_ || _); [|done].
    destruct (card_schedule c
      (Partial.mk None None None (Some (Z.max 150 width)) (Some (Z.max 150 height))
                  None None None None) 200 Hone) as (Href & _ & _ & _ & Hp).
    intros timer entry Hpending. apply Hp in Hpending as [-> _]. done.
  - unfold Card.timer_fires.
    destruct (Card.timers c !! timer) as [[[delay updates]|]|] eqn:Ht; try done.
    intros timer' entry Hpending. simpl in *.
    destruct (decide (timer = timer')) as [<-|Hne].
    + apply list_lookup_insert_Some in Hpending as [[_ [? _]] | [? _]]; done.
    + rewrite list_lookup_insert_ne in Hpending by done.
      apply Hone in Hpending. apply Hone in Ht. congruence.
  - unfold Card.cleanup. destruct (Card.debounceTimer c) as [t0|] eqn:Href; [|done].
    intros timer entry Hpending. simpl in *.
    destruct (decide (t0 = timer)) as [<-|Hne].
    + apply list_lookup_insert_Some in Hpending as [[_ [? _]] | [? _]]; done.
    + rewrite list_lookup_insert_ne in Hpending by done.
      apply Hone in Hpending. congruence.
Qed.

Lemma card_one_pending_run (events : list Card.Event) (c : Card.t) :
  Card.one_pending c → Card.one_pending (Card.handle_all events c).
Proof.
  revert c. induction events as [|e events IH]; intros c Hone; [done|].
  simpl. by apply IH, card_one_pending_step.
Qed.

Lemma card_mounted_one_pending (note : Note.t) : Card.one_pending (Card.mounted note).
Proof. by intros [|timer] entry Hpending. Qed.

(** X18.  Whatever a card goes through (renders, edits, resizes, timers
    firing, cleanups, drags), it has at most one timer pending, the one
    [debounceTimer] holds: a header edit, a content edit and a resize all
    share one slot, and each new one cancels the one before. *)
Theorem card_at_most_one_timer (events : list Card.Event) (note : Note.t)
    (timer timer' : nat) (entry entry' : Z * Partial.t) :
  let c := Card.handle_all events (Card.mounted note) in
  Card.timers c !! timer = Some (Some entry) →
  Card.timers c !! timer' = Some (Some entry') →
  timer = timer' ∧ Card.debounceTimer c = Some timer.
Proof.
  intros c Hp Hp'.
  pose proof (card_one_pending_run events _ (card_mounted_one_pending note)) as Hone.
  fold c in Hone. pose proof (Hone _ _ Hp) as Href.
  pose proof (Hone _ _ Hp') as Href'. split; [congruence | done].
Qed.

Lemma card_at_most_one_timer_witness :
  1%nat = 1%nat ∧
  Card.debounceTimer
    (Card.handle_all [Card.Edited (header_edit "x"); Card.Resized 400 400]
       (Card.mounted (note_of "a" (Some 3)))) = Some 1%nat.
Proof.
  apply (card_at_most_one_timer
           [Card.Edited (header_edit "x"); Card.Resized 400 400]
           (note_of "a" (Some 3)) 1%nat 1%nat
           (200, Partial.mk None None None (Some 400) (Some 400) None None None None)
           (200, Partial.mk None None None (Some 400) (Some 400) None None None None));
    reflexivity.
Defined.

Lemma card_edit_all (l : list Partial.t) :
  ∀ (c : Card.t) (last : Partial.t),
  Card.one_pending c →
  let c' := Card.edit_all (l ++ [last]) c in
  Card.one_pending c' ∧
  Card.latestNoteRef c' = Card.latestNoteRef c ∧
  Card.onUpdate_calls c' = Card.onUpdate_calls c ∧
  ∀ timer entry,
    Card.timers c' !! timer = Some (Some entry) ↔
    timer = (length (Card.timers c) + length l)%nat ∧ entry = (300, last).
Proof.
  induction l as [|u l IH]; intros c last Hone; simpl.
  - destruct (card_debouncedUpdate c last Hone) as (_ & _ & Hnote & Hcalls & Hp).
    split; [by apply (card_one_pending_step (Card.Edited last))|].
    split; [done|]. split; [done|].
    intros timer entry. rewrite Hp, Nat.add_0_r. done.
  - destruct (card_debouncedUpdate c u Hone) as (_ & Hlen & Hnote & Hcalls & _).
    destruct (IH (Card.debouncedUpdate u c) last) as (Hone' & Hnote' & Hcalls' & Hp').
    { by apply (card_one_pending_step (Card.Edited u)). }
    split; [exact Hone'|]. split; [congruence|]. split; [congruence|].
    intros timer entry. rewrite Hp', Hlen.
    by replace (S (length (Card.timers c)) + length l)%nat
      with (length (Card.timers c) + S (length l))%nat by lia.
Qed.

(** X19.  A burst of edits is coalesced into one call.  After any number
    of [debouncedUpdate] calls with no timer firing in between, the only
    pending timer is the last call's, with delay 300; when it fires,
    [onUpdate] is called once, with the latest note overlaid with the
    updates of the last call alone, and no timer is left pending.  What the
    earlier calls of the burst carried is not sent. *)
Theorem card_edits_coalesce (burst : list Partial.t) (last : Partial.t)
    (c : Card.t) :
  Card.one_pending c →
  let c' := Card.edit_all (burst ++ [last]) c in
  let timer := (length (Card.timers c) + length burst)%nat in
  (∀ t entry, Card.timers c' !! t = Some (Some entry) ↔
              t = timer ∧ entry = (300, last)) ∧
  Card.onUpdate_calls c' = Card.onUpdate_calls c ∧
  Card.onUpdate_calls (Card.timer_fires timer c') =
    Card.onUpdate_calls c ++ [Card.spread (Card.latestNoteRef c) last] ∧
  Card.debounceTimer (Card.timer_fires timer c') = None ∧
  ∀ t entry, Card.timers (Card.timer_fires timer c') !! t ≠ Some (Some entry).
Proof.
  intros Hone c' timer.
  destruct (card_edit_all burst c last Hone) as (Hone' & Hnote & Hcalls & Hp).
  fold c' in Hone', Hnote, Hcalls, Hp. fold timer in Hp.
  assert (Hpending : Card.timers c' !! timer = Some (Some (300, last)))
    by (by apply Hp).
  split_and!; try done.
  - unfold Card.timer_fires. rewrite Hpending. simpl. by rewrite Hcalls, Hnote.
  - unfold Card.timer_fires. by rewrite Hpending.
  - intros t entry. unfold Card.timer_fires. rewrite Hpending. simpl.
    intros Hafter. destruct (decide (timer = t)) as [<-|Hne].
    + apply list_lookup_insert_Some in Hafter as [[_ [? _]] | [? _]]; done.
    + rewrite list_lookup_insert_ne in Hafter by done.
      apply Hp in Hafter as [-> _]. done.
Qed.

Lemma card_edits_coalesce_witness :
  let c' := Card.edit_all [header_edit "Plan"; content_edit "milk"]
              (Card.mounted (note_of "a" (Some 3))) in
  Card.onUpdate_calls (Card.timer_fires 1%nat c') =
    [Card.spread (note_of "a" (Some 3)) (content_edit "milk")] ∧
  Note.header (Card.spread (note_of "a" (Some 3)) (content_edit "milk")) = "H".
Proof.
  split; [|reflexivity].
  exact (proj1 (proj2 (proj2
           (card_edits_coalesce [header_edit "Plan"] (content_edit "milk")
              (Card.mounted (note_of "a" (Some 3)))
              (card_mounted_one_pending _))))).
Defined.

(** X20.  After the cleanup of a card no timer is pending, so no timer that
    fires later calls [onUpdate]: the card, once cleaned up, stays as it
    is. *)
Theorem card_cleanup_cancels (events : list Card.Event) (note : Note.t)
    (timer : nat) :
  let c := Card.cleanup (Card.handle_all events (Card.mounted note)) in
  Card.timer_fires timer c = c ∧ Card.debounceTimer c = None.
Proof.
  intros c.
  pose proof (card_one_pending_run events _ (card_mounted_one_pending note)) as Hone.
  assert (Hclean : Card.one_pending c ∧ Card.debounceTimer c = None).
  { subst c. split; [exact (card_one_pending_step Card.CleanedUp _ Hone)|].
    unfold Card.cleanup.
    by destruct (Card.debounceTimer (Card.handle_all events (Card.mounted note)))
      eqn:Href. }
  destruct Hclean as [Hone' Href]. split; [|done].
  unfold Card.timer_fires.
  destruct (Card.timers c !! timer) as [[[delay updates]|]|] eqn:Ht; try done.
  apply Hone' in Ht. congruence.
Qed.

(** * Properties of the minimap's bounds *)

Lemma minimap_extend_finite (l : list Note.t) :
  ∀ a b c d : Z,
  ∃ a' b' c' d' : Z,
    foldl Minimap.extend
      (Minimap.Finite a, Minimap.Finite b, Minimap.Finite c, Minimap.Finite d) l =
      (Minimap.Finite a', Minimap.Finite b', Minimap.Finite c', Minimap.Finite d') ∧
    a' ≤ a ∧ b' ≤ b ∧ c ≤ c' ∧ d ≤ d' ∧
    ∀ n, n ∈ l →
      a' ≤ Note.x n ∧ b' ≤ Note.y n ∧
      Note.x n + Note.w n ≤ c' ∧ Note.y n + Note.h n ≤ d'.
Proof.
  induction l as [|n0 l IH]; intros a b c d; simpl.
  - exists a, b, c, d. split_and!; try done.
    intros n Hn. by apply elem_of_nil in Hn.
  - destruct (IH (Z.min a (Note.x n0)) (Z.min b (Note.y n0))
                 (Z.max c (Note.x n0 + Note.w n0))
                 (Z.max d (Note.y n0 + Note.h n0)))
      as (a' & b' & c' & d' & Heq & Ha & Hb & Hc & Hd & Hall).
    exists a', b', c', d'. split; [exact Heq|]. split_and!; try lia.
    intros n Hn. apply elem_of_cons in Hn as [->|Hn]; [lia | by apply Hall].
Qed.

(** X21.  The minimap's bounds are always finite numbers: they start at
    non-negative coordinates, span at least 1000 in each direction (so the
    scale that divides by the span is defined), and reach at least 20
    beyond the right and bottom edge of every note; a note at non-negative
    coordinates lies right of and below their origin.  Without notes they
    are 0, 0, 1000, 1000. *)
Theorem minimap_bounds_contain_notes (m : gmap string Note.t) :
  ∃ x0 y0 x1 y1 : Z,
    Minimap.bounds m =
      Minimap.Build_Bounds (Minimap.Finite x0) (Minimap.Finite y0)
                           (Minimap.Finite x1) (Minimap.Finite y1) ∧
    0 ≤ x0 ∧ 0 ≤ y0 ∧ 1000 ≤ x1 - x0 ∧ 1000 ≤ y1 - y0 ∧
    (m = ∅ → x0 = 0 ∧ y0 = 0 ∧ x1 = 1000 ∧ y1 = 1000) ∧
    ∀ k n, m !! k = Some n →
      Note.x n + Note.w n + 20 ≤ x1 ∧ Note.y n + Note.h n + 20 ≤ y1 ∧
      (0 ≤ Note.x n → x0 ≤ Note.x n) ∧ (0 ≤ Note.y n → y0 ≤ Note.y n).
Proof.
  assert (Hmem : ∀ k n, m !! k = Some n → n ∈ (map_to_list m).*2).
  { intros k n Hn. apply list_elem_of_fmap. exists (k, n).
    split; [done | by apply elem_of_map_to_list]. }
  unfold Minimap.bounds.
  destruct ((map_to_list m).*2) as [|n0 l] eqn:Hlist.
  - exists 0, 0, 1000, 1000. split_and!; try done.
    intros k n Hn. apply Hmem in Hn. by apply elem_of_nil in Hn.
  - assert (Hne : m ≠ ∅).
    { intros ->. by rewrite map_to_list_empty in Hlist. }
    simpl.
    destruct (minimap_extend_finite l (Note.x n0) (Note.y n0)
                (Note.x n0 + Note.w n0) (Note.y n0 + Note.h n0))
      as (a & b & c & d & -> & Ha & Hb & Hc & Hd & Hall).
    unfold Minimap.PADDING. simpl.
    eexists _, _, _, _. split; [reflexivity|].
    split_and!; try done; try lia.
    intros k n Hn. apply Hmem in Hn.
    apply elem_of_cons in Hn as [->|Hn]; [|destruct (Hall n Hn) as (?&?&?&?)]; lia.
Qed.

Lemma minimap_bounds_contain_notes_witness :
  ∃ x0 y0 x1 y1 : Z,
    Minimap.bounds (notes board) =
      Minimap.Build_Bounds (Minimap.Finite x0) (Minimap.Finite y0)
                           (Minimap.Finite x1) (Minimap.Finite y1) ∧
    1000 ≤ x1 - x0 ∧ Note.x (note_of "a" (Some 3)) + Note.w (note_of "a" (Some 3)) + 20 ≤ x1.
Proof.
  destruct (minimap_bounds_contain_notes (notes board))
    as (x0 & y0 & x1 & y1 & Heq & _ & _ & Hw & _ & _ & Hall).
  exists x0, y0, x1, y1. split; [exact Heq|]. split; [exact Hw|].
  exact (proj1 (Hall "a" (note_of "a" (Some 3)) eq_refl)).
Defined.

Lemma added_note_is_on_top_witness :
  maxZIndex (notes (@add_note test_host "n" board)) = maxZIndex (notes board) + 1.
Proof.
  apply (proj1 (proj2 (proj2 (@added_note_is_on_top test_host "n" board)))).
  reflexivity.
Defined.
